(** * Virtual hangout: the room synchronisation server and the client's
      playback reconciliation

    A shallow embedding of the socket server (the [io.on('connection')]
    handlers over the in-memory [rooms] map) and of the player component's
    [onPlayerSync] subscription, with the properties of the roster, the
    vote/consensus engine, the chat buffer and the latency compensation.

    Modelling choices:
    - JavaScript numbers that hold times ([currentTime], [videoTime],
      [Date.now()], [serverTime]) are IEEE 754 binary64 values, modelled by
      Rocq's primitive [float], whose operations are the same binary64
      operations.  [currentVideoIndex] and array lengths are integers,
      written in [Z]; storing and comparing them is exact, and where the
      code computes with the index (the [++] of the vote handler, the
      client's [+ 1] and [- 1]) the result is rounded as binary64 arithmetic
      rounds it ([increment], [decrement]).
    - The [rooms] Map is a [gmap string Room]; a handler mutates the room
      object held by the map, which is written here as re-inserting the
      updated room under its key.
    - A JavaScript [Set] of strings iterates in insertion order: it is a
      list without repetitions, new members appended.
    - A handler returns the new [rooms] map, the connection's new closure
      state ([currentRoomId]) and the transport effects it performed, in
      program order. *)

From Stdlib Require Import ZArith PrimFloat Floats.
From stdpp Require Import gmap strings list pretty.

Local Open Scope Z_scope.

(** ** Data model *)

Module Participant.
Record t := mk {
  id : string;
  name : string;
  isHost : bool;
  isMuted : bool;
  isCameraOff : bool;
}.

(** [Partial<Participant>]: a field is present or not. *)
Record partial := mkPartial {
  u_id : option string;
  u_name : option string;
  u_isHost : option bool;
  u_isMuted : option bool;
  u_isCameraOff : option bool;
}.

(** [Object.assign(participant, updates)]. *)
Definition assign (p : t) (u : partial) : t :=
  {| id := default (id p) (u_id u);
     name := default (name p) (u_name u);
     isHost := default (isHost p) (u_isHost u);
     isMuted := default (isMuted p) (u_isMuted u);
     isCameraOff := default (isCameraOff p) (u_isCameraOff u) |}.
End Participant.

Module QueueItem.
Record t := mk {
  id : string;
  videoId : string;
  title : string;
  thumbnail : string;
  addedBy : string;
  duration : option string;
}.
End QueueItem.

Module ChatMessage.
Record t := mk {
  id : string;
  senderId : string;
  senderName : string;
  content : string;
  timestamp : float;
  isSystem : option bool;
}.
End ChatMessage.

Inductive PlayerState := unstarted | playing | paused | buffering | ended.

Inductive Action := play | pause | seek.

#[global] Instance Action_eq_dec : EqDecision Action.
Proof. solve_decision. Defined.

(** ** JavaScript helpers *)

(** [Array.prototype.findIndex]: the first index whose element satisfies
    the predicate, [-1] when there is none. *)
Fixpoint findIndex {A} (f : A → bool) (l : list A) : Z :=
  match l with
  | [] => -1
  | x :: l' =>
      if f x then 0
      else let i := findIndex f l' in if i <? 0 then -1 else i + 1
  end.

(** [Array.prototype.shift]: drops the first element. *)
Definition shift {A} (l : list A) : list A := tail l.

(** ** Arithmetic on numbers that hold integers

    A JavaScript number is a binary64 value.  Integers of magnitude up to
    2^53 are all representable; above that only the multiples of the
    binade's spacing are, and the exact result of an operation is rounded to
    the nearest representable value, ties to the even significand.
    [binary64_round z] is that value for an integer [z] in the range of the
    finite doubles. *)
Definition binary64_round (z : Z) : Z :=
  let a := Z.abs z in
  if a <=? 9007199254740992 (* 2^53 *) then z
  else
    let ulp := 2 ^ (Z.log2 a - 52) in
    let q := a / ulp in
    let r := a mod ulp in
    let q' :=
      if 2 * r <? ulp then q
      else if ulp <? 2 * r then q + 1
      else if Z.even q then q else q + 1 in
    Z.sgn z * (q' * ulp).

(** [x++] and [x + 1] on a number that holds the integer [z]. *)
Definition increment (z : Z) : Z := binary64_round (z + 1).

(** [x - 1] on a number that holds the integer [z]. *)
Definition decrement (z : Z) : Z := binary64_round (z - 1).

(** The same operations through the primitive binary64 values: the double
    nearest to an integer, and the integer a finite double holds. *)
Definition number_of_Z (z : Z) : float :=
  SF2Prim (binary_normalize prec emax z 0 false).

Definition Z_of_number (x : float) : Z :=
  match Prim2SF x with
  | S754_finite s m e =>
      let v := if 0 <=? e then Z.pos m * 2 ^ e else Z.pos m / 2 ^ (- e) in
      if s then - v else v
  | _ => 0
  end.

(** A [Set] of strings, in insertion order. *)
Module JSSet.
Definition t := list string.
Definition empty : t := [].
Definition add (x : string) (s : t) : t :=
  if bool_decide (x ∈ s) then s else s ++ [x].
Definition size (s : t) : Z := Z.of_nat (length s).
Definition clear (s : t) : t := [].
(** [Array.from(set)] *)
Definition to_array (s : t) : list string := s.
End JSSet.

(** Truthiness of a string: only the empty string is falsy.  ([null], the
    other falsy value [currentRoomId] takes, is [None] below.) *)
Definition truthy (s : string) : bool := negb (bool_decide (s = EmptyString)).

(** ** Room state and the registry *)

Record Room := mkRoom {
  participants : list Participant.t;
  queue : list QueueItem.t;
  messages : list ChatMessage.t;
  votes : JSSet.t;
  currentVideoIndex : Z;
  playerState : PlayerState;
  currentTime : float;
}.

Definition set_participants (v : list Participant.t) (r : Room) : Room :=
  mkRoom v (queue r) (messages r) (votes r) (currentVideoIndex r)
         (playerState r) (currentTime r).

Definition set_queue (v : list QueueItem.t) (r : Room) : Room :=
  mkRoom (participants r) v (messages r) (votes r) (currentVideoIndex r)
         (playerState r) (currentTime r).

Definition set_messages (v : list ChatMessage.t) (r : Room) : Room :=
  mkRoom (participants r) (queue r) v (votes r) (currentVideoIndex r)
         (playerState r) (currentTime r).

Definition set_votes (v : JSSet.t) (r : Room) : Room :=
  mkRoom (participants r) (queue r) (messages r) v (currentVideoIndex r)
         (playerState r) (currentTime r).

Definition set_currentVideoIndex (v : Z) (r : Room) : Room :=
  mkRoom (participants r) (queue r) (messages r) (votes r) v
         (playerState r) (currentTime r).

Definition set_playerState (v : PlayerState) (r : Room) : Room :=
  mkRoom (participants r) (queue r) (messages r) (votes r)
         (currentVideoIndex r) v (currentTime r).

Definition set_currentTime (v : float) (r : Room) : Room :=
  mkRoom (participants r) (queue r) (messages r) (votes r)
         (currentVideoIndex r) (playerState r) v.

(** The object literal of [getRoom]. *)
Definition newRoom : Room :=
  {| participants := [];
     queue := [];
     messages := [];
     votes := JSSet.empty;
     currentVideoIndex := 0;
     playerState := paused;
     currentTime := 0%float |}.

(** [getRoom(roomId)]: the room and the map, in which the room now exists. *)
Definition getRoom (roomId : string) (rooms : gmap string Room)
  : Room * gmap string Room :=
  match rooms !! roomId with
  | Some r => (r, rooms)
  | None => (newRoom, <[roomId := newRoom]> rooms)
  end.

(** ** Transport: events sent to clients *)

Record RoomSnapshot := mkSnapshot {
  s_participants : list Participant.t;
  s_queue : list QueueItem.t;
  s_messages : list ChatMessage.t;
  s_votes : list string;
  s_currentVideoIndex : Z;
  s_playerState : PlayerState;
  s_currentTime : float;
}.

Record SyncEvent := mkSync {
  action : Action;
  videoTime : float;
  serverTime : float;
  initiator : string;
}.

Inductive ServerMsg :=
| RoomJoined (s : RoomSnapshot)                     (* 'room:joined' *)
| ParticipantJoined (p : Participant.t)             (* 'room:participant-joined' *)
| ParticipantLeft (id : string)                     (* 'room:participant-left' *)
| ParticipantUpdated (id : string) (u : Participant.partial)
                                                    (* 'room:participant-updated' *)
| PlayerSync (e : SyncEvent)                        (* 'player:sync' *)
| QueueUpdated (q : list QueueItem.t)               (* 'queue:updated' *)
| QueueVideoChanged (index : Z)                     (* 'queue:video-changed' *)
| ChatMsg (m : ChatMessage.t)                       (* 'chat:message' *)
| VotesUpdated (v : list string).                   (* 'room:votes-updated' *)

(** Who an emit is addressed to: [socket.emit], [socket.to(room).emit]
    (the room without the sender) and [io.to(room).emit] (the whole room). *)
Inductive Target :=
| ToSender
| ToOthers (roomId : string)
| ToRoom (roomId : string).

Inductive Effect :=
| SocketJoin (roomId : string)                      (* socket.join(roomId) *)
| SocketLeave (roomId : string)                     (* socket.leave(roomId) *)
| Emit (t : Target) (m : ServerMsg).

(** The connections an emit reaches, given the transport's room membership
    ([members roomId]: the sockets that joined [roomId]) and the socket that
    runs the handler. *)
Definition recipients (members : string → gset string) (sender : string)
    (t : Target) : gset string :=
  match t with
  | ToSender => {[ sender ]}
  | ToOthers roomId => members roomId ∖ {[ sender ]}
  | ToRoom roomId => members roomId
  end.

(** The per-connection closure: [socket.id] and [let currentRoomId]. *)
Record Connection := mkConn {
  socket_id : string;
  currentRoomId : option string;
}.

Definition connect (id : string) : Connection :=
  {| socket_id := id; currentRoomId := None |}.

(** [array.length] *)
Definition len {A} (l : list A) : Z := Z.of_nat (length l).

(** ** The socket handlers

    Each takes the handling socket's closure, the event payload and the
    [rooms] map; [now] is the value [Date.now()] returns while the handler
    runs. *)

Definition Result : Type := gmap string Room * Connection * list Effect.

Definition snapshot (room : Room) : RoomSnapshot :=
  {| s_participants := participants room;
     s_queue := queue room;
     s_messages := messages room;
     s_votes := JSSet.to_array (votes room);
     s_currentVideoIndex := currentVideoIndex room;
     s_playerState := playerState room;
     s_currentTime := currentTime room |}.

(** [socket.on('room:join', ({ roomId, participant }) => ...)] *)
Definition on_room_join (socket : Connection) (roomId : string)
    (participant : Participant.t) (rooms : gmap string Room) : Result :=
  let '(room, rooms) := getRoom roomId rooms in
  let existingIndex :=
    findIndex
      (λ p, bool_decide (Participant.id p = Participant.id participant))
      (participants room) in
  let room :=
    if 0 <=? existingIndex
    then set_participants
           (<[Z.to_nat existingIndex := participant]> (participants room)) room
    else set_participants (participants room ++ [participant]) room in
  (<[roomId := room]> rooms,
   {| socket_id := socket_id socket; currentRoomId := Some roomId |},
   [ SocketJoin roomId;
     Emit ToSender (RoomJoined (snapshot room));
     Emit (ToOthers roomId) (ParticipantJoined participant) ]).

(** The statement shared by 'room:leave' and 'disconnect':
    [room.participants = room.participants.filter(p => p.id !== socket.id)]. *)
Definition remove_participant (id : string) (room : Room) : Room :=
  set_participants
    (filter (λ p, Participant.id p ≠ id) (participants room)) room.

(** [socket.on('room:leave', (roomId) => ...)]: the payload is not used. *)
Definition on_room_leave (socket : Connection) (roomId : string)
    (rooms : gmap string Room) : Result :=
  match currentRoomId socket with
  | Some current =>
      if truthy current then
        let '(room, rooms) := getRoom current rooms in
        let room := remove_participant (socket_id socket) room in
        (<[current := room]> rooms,
         {| socket_id := socket_id socket; currentRoomId := None |},
         [ Emit (ToOthers current) (ParticipantLeft (socket_id socket));
           SocketLeave current ])
      else (rooms, socket, [])
  | None => (rooms, socket, [])
  end.

(** [socket.on('participant:update', ({ roomId, updates }) => ...)] *)
Definition on_participant_update (socket : Connection) (roomId : string)
    (updates : Participant.partial) (rooms : gmap string Room) : Result :=
  let '(room, rooms) := getRoom roomId rooms in
  let i :=
    findIndex (λ p, bool_decide (Participant.id p = socket_id socket))
              (participants room) in
  if 0 <=? i then
    let room :=
      set_participants
        (alter (λ p, Participant.assign p updates) (Z.to_nat i)
               (participants room)) room in
    (<[roomId := room]> rooms, socket,
     [ Emit (ToRoom roomId) (ParticipantUpdated (socket_id socket) updates) ])
  else (rooms, socket, []).

(** [socket.on('player:action', ({ roomId, action, videoTime }) => ...)] *)
Definition on_player_action (now : float) (socket : Connection)
    (roomId : string) (action : Action) (videoTime : float)
    (rooms : gmap string Room) : Result :=
  let '(room, rooms) := getRoom roomId rooms in
  let room :=
    match action with
    | play => set_playerState playing room
    | pause => set_playerState paused room
    | seek => room
    end in
  let room := set_currentTime videoTime room in
  (<[roomId := room]> rooms, socket,
   [ Emit (ToRoom roomId)
       (PlayerSync {| action := action;
                      videoTime := videoTime;
                      serverTime := now;
                      initiator := socket_id socket |}) ]).

(** [socket.on('queue:add', ({ roomId, item }) => ...)] *)
Definition on_queue_add (socket : Connection) (roomId : string)
    (item : QueueItem.t) (rooms : gmap string Room) : Result :=
  let '(room, rooms) := getRoom roomId rooms in
  let room := set_queue (queue room ++ [item]) room in
  (<[roomId := room]> rooms, socket,
   [ Emit (ToRoom roomId) (QueueUpdated (queue room)) ]).

(** [socket.on('queue:remove', ({ roomId, itemId }) => ...)] *)
Definition on_queue_remove (socket : Connection) (roomId : string)
    (itemId : string) (rooms : gmap string Room) : Result :=
  let '(room, rooms) := getRoom roomId rooms in
  let room :=
    set_queue (filter (λ item, QueueItem.id item ≠ itemId) (queue room)) room in
  (<[roomId := room]> rooms, socket,
   [ Emit (ToRoom roomId) (QueueUpdated (queue room)) ]).

(** [socket.on('queue:change-video', ({ roomId, index }) => ...)] *)
Definition on_queue_change_video (socket : Connection) (roomId : string)
    (index : Z) (rooms : gmap string Room) : Result :=
  let '(room, rooms) := getRoom roomId rooms in
  let room := set_currentVideoIndex index room in
  let room := set_currentTime 0%float room in
  (<[roomId := room]> rooms, socket,
   [ Emit (ToRoom roomId) (QueueVideoChanged index) ]).

(** [socket.on('chat:send', ({ roomId, message }) => ...)] *)
Definition on_chat_send (socket : Connection) (roomId : string)
    (message : ChatMessage.t) (rooms : gmap string Room) : Result :=
  let '(room, rooms) := getRoom roomId rooms in
  let room := set_messages (messages room ++ [message]) room in
  let room :=
    if 100 <? len (messages room)
    then set_messages (shift (messages room)) room
    else room in
  (<[roomId := room]> rooms, socket,
   [ Emit (ToRoom roomId) (ChatMsg message) ]).

(** [socket.on('vote:next', ({ roomId, participantId }) => ...)] *)
Definition on_vote_next (now : float) (socket : Connection)
    (roomId : string) (participantId : string)
    (rooms : gmap string Room) : Result :=
  let '(room, rooms) := getRoom roomId rooms in
  if negb (truthy participantId) then (rooms, socket, [])
  else
    let room := set_votes (JSSet.add participantId (votes room)) room in
    let votes_updated :=
      Emit (ToRoom roomId) (VotesUpdated (JSSet.to_array (votes room))) in
    if len (participants room) <=? JSSet.size (votes room) then
      if currentVideoIndex room <? len (queue room) - 1 then
        let room :=
          set_currentVideoIndex (increment (currentVideoIndex room)) room in
        let room := set_currentTime 0%float room in
        let room := set_playerState playing room in
        let room := set_votes (JSSet.clear (votes room)) room in
        (<[roomId := room]> rooms, socket,
         [ votes_updated;
           Emit (ToRoom roomId) (QueueVideoChanged (currentVideoIndex room));
           Emit (ToRoom roomId) (VotesUpdated []);
           Emit (ToRoom roomId)
             (PlayerSync {| action := play;
                            videoTime := 0%float;
                            serverTime := now;
                            initiator := "system" |}) ])
      else
        let room := set_votes (JSSet.clear (votes room)) room in
        (<[roomId := room]> rooms, socket,
         [ votes_updated; Emit (ToRoom roomId) (VotesUpdated []) ])
    else (<[roomId := room]> rooms, socket, [ votes_updated ]).

(** [socket.on('disconnect', () => ...)] *)
Definition on_disconnect (socket : Connection)
    (rooms : gmap string Room) : Result :=
  match currentRoomId socket with
  | Some current =>
      if truthy current then
        let '(room, rooms) := getRoom current rooms in
        let room := remove_participant (socket_id socket) room in
        (<[current := room]> rooms, socket,
         [ Emit (ToOthers current) (ParticipantLeft (socket_id socket)) ])
      else (rooms, socket, [])
  | None => (rooms, socket, [])
  end.

(** ** The server as a transition system *)

Inductive ClientEvent :=
| RoomJoin (roomId : string) (participant : Participant.t)
| RoomLeave (roomId : string)
| ParticipantUpdate (roomId : string) (updates : Participant.partial)
| PlayerAction (roomId : string) (action : Action) (videoTime : float)
| QueueAdd (roomId : string) (item : QueueItem.t)
| QueueRemove (roomId : string) (itemId : string)
| QueueChangeVideo (roomId : string) (index : Z)
| ChatSend (roomId : string) (message : ChatMessage.t)
| VoteNext (roomId : string) (participantId : string)
| Disconnect.

Definition handle (now : float) (socket : Connection) (ev : ClientEvent)
    (rooms : gmap string Room) : Result :=
  match ev with
  | RoomJoin roomId participant => on_room_join socket roomId participant rooms
  | RoomLeave roomId => on_room_leave socket roomId rooms
  | ParticipantUpdate roomId updates =>
      on_participant_update socket roomId updates rooms
  | PlayerAction roomId action videoTime =>
      on_player_action now socket roomId action videoTime rooms
  | QueueAdd roomId item => on_queue_add socket roomId item rooms
  | QueueRemove roomId itemId => on_queue_remove socket roomId itemId rooms
  | QueueChangeVideo roomId index =>
      on_queue_change_video socket roomId index rooms
  | ChatSend roomId message => on_chat_send socket roomId message rooms
  | VoteNext roomId participantId =>
      on_vote_next now socket roomId participantId rooms
  | Disconnect => on_disconnect socket rooms
  end.

(** The [rooms] maps the server can be in: the empty map at start, then one
    handler run at a time, by any connection. *)
Inductive reachable : gmap string Room → Prop :=
| reachable_start : reachable ∅
| reachable_step rooms now socket ev :
    reachable rooms → reachable (handle now socket ev rooms).1.1.

(** A sequence of handler runs, each by some connection at some time. *)
Definition Input : Type := float * Connection * ClientEvent.

Definition step (rooms : gmap string Room) (i : Input) : gmap string Room :=
  (handle i.1.1 i.1.2 i.2 rooms).1.1.

Definition steps (inputs : list Input) (rooms : gmap string Room)
  : gmap string Room :=
  foldl step rooms inputs.

(** The room a handler works on when it asks for [roomId]. *)
Definition room_of (rooms : gmap string Room) (roomId : string) : Room :=
  (getRoom roomId rooms).1.

(** ** The client: the player component's subscription to 'player:sync' *)

Module Client.

(** What the handler reads of the YouTube player object. *)
Record YTPlayer := mkPlayer {
  getCurrentTime : float;
}.

Inductive ClientEffect :=
| seekTo (seconds : float) (allowSeekAhead : bool)  (* player.seekTo *)
| playVideo                                         (* player.playVideo *)
| pauseVideo                                        (* player.pauseVideo *)
| SET_PLAYER_STATE (payload : PlayerState).         (* dispatch *)

(** The callback given to [onPlayerSync]; [playerRef] is [playerRef.current]
    ([None] for [null]), [now] the value of [Date.now()].  Both clocks count
    milliseconds, [videoTime] and the player's time count seconds. *)
Definition onPlayerSync (playerRef : option YTPlayer) (isReady : bool)
    (now : float) (data : SyncEvent) : list ClientEffect :=
  match playerRef with
  | None => []
  | Some player =>
      if negb isReady then []
      else
        let latency := ((now - serverTime data) / 1000)%float in
        let targetTime := (videoTime data + latency)%float in
        let currentPlayerTime := getCurrentTime player in
        (if bool_decide (action data = seek)
            || (1 <? abs (currentPlayerTime - targetTime))%float
         then [ seekTo targetTime true ]
         else [])
        ++ match action data with
           | play => [ playVideo; SET_PLAYER_STATE playing ]
           | pause => [ pauseVideo; SET_PLAYER_STATE paused ]
           | seek => []
           end
  end.

End Client.

(** ** Definitions used to state the properties *)

(** *** Roster *)

Definition ids (l : list Participant.t) : list string := Participant.id <$> l.

(** The roster after [participant] joins a room whose roster is [l]. *)
Definition joined (participant : Participant.t) (l : list Participant.t)
  : list Participant.t :=
  let existingIndex :=
    findIndex
      (λ p, bool_decide (Participant.id p = Participant.id participant)) l in
  if 0 <=? existingIndex
  then <[Z.to_nat existingIndex := participant]> l
  else l ++ [participant].

(** Every input is a join to [roomId]. *)
Definition joins_to (roomId : string) (inputs : list Input) : Prop :=
  Forall (λ i : Input, ∃ participant, i.2 = RoomJoin roomId participant) inputs.

(** *** Sample data *)

Definition alice : Participant.t :=
  {| Participant.id := "a"; Participant.name := "Alice";
     Participant.isHost := true; Participant.isMuted := false;
     Participant.isCameraOff := false |}.

Definition bob : Participant.t :=
  {| Participant.id := "b"; Participant.name := "Bob";
     Participant.isHost := false; Participant.isMuted := false;
     Participant.isCameraOff := false |}.

Definition carol : Participant.t :=
  {| Participant.id := "c"; Participant.name := "Carol";
     Participant.isHost := false; Participant.isMuted := true;
     Participant.isCameraOff := false |}.

(** Alice, joining again under the same id with her camera off. *)
Definition alice' : Participant.t :=
  {| Participant.id := "a"; Participant.name := "Alice";
     Participant.isHost := true; Participant.isMuted := false;
     Participant.isCameraOff := true |}.

Definition three_joins_and_a_rejoin : list Input :=
  [ (1000%float, connect "s1", RoomJoin "R" alice);
    (2000%float, connect "s2", RoomJoin "R" bob);
    (3000%float, connect "s3", RoomJoin "R" carol);
    (4000%float, connect "s4", RoomJoin "R" alice') ].

(** Connection [s1], joined to room R. *)
Definition s1_in_R : Connection :=
  {| socket_id := "s1"; currentRoomId := Some "R" |}.

(** Room R with three participants whose ids are their socket ids. *)
Definition sam : Participant.t :=
  {| Participant.id := "s1"; Participant.name := "Sam";
     Participant.isHost := true; Participant.isMuted := false;
     Participant.isCameraOff := false |}.

Definition room_with_sam : Room :=
  set_participants [alice; sam; bob] newRoom.

(** *** Votes *)

(** Consensus fired in a run of the vote handler: the handler announced the
    cleared vote set.  (Both consensus branches emit it; the announcement
    made before the check carries the vote just cast, so it is never empty.) *)
Definition consensus_fired (roomId : string) (effs : list Effect) : Prop :=
  Emit (ToRoom roomId) (VotesUpdated []) ∈ effs.

(** The synthetic sync event of the advance branch. *)
Definition system_play (now : float) : SyncEvent :=
  {| action := play; videoTime := 0%float; serverTime := now;
     initiator := "system" |}.

Definition video1 : QueueItem.t :=
  {| QueueItem.id := "q1"; QueueItem.videoId := "v1"; QueueItem.title := "One";
     QueueItem.thumbnail := "t1"; QueueItem.addedBy := "Alice";
     QueueItem.duration := None |}.

Definition video2 : QueueItem.t :=
  {| QueueItem.id := "q2"; QueueItem.videoId := "v2"; QueueItem.title := "Two";
     QueueItem.thumbnail := "t2"; QueueItem.addedBy := "Bob";
     QueueItem.duration := Some "3:05" |}.

(** Three participants, two queued videos, the first one current; Alice and
    Bob have voted. *)
Definition two_of_three_voted : Room :=
  {| participants := [alice; bob; carol];
     queue := [video1; video2];
     messages := [];
     votes := ["a"; "b"];
     currentVideoIndex := 0;
     playerState := paused;
     currentTime := 12.5%float |}.

(** The same room on its last video. *)
Definition two_of_three_voted_last : Room :=
  set_currentVideoIndex 1 two_of_three_voted.

(** Sam (whose id is his socket's) in the room; Alice and Bob have voted. *)
Definition sam_has_not_voted : Room :=
  {| participants := [alice; sam; bob];
     queue := [video1; video2];
     messages := [];
     votes := ["a"; "b"];
     currentVideoIndex := 0;
     playerState := playing;
     currentTime := 3%float |}.

(** Three participants, nobody has voted. *)
Definition nobody_voted : Room := set_votes [] two_of_three_voted.

(** Alice alone in room R with two videos queued, after a
    'queue:change-video' that carried an index far below the queue. *)
Definition index_far_below_the_queue : list Input :=
  [ (1000%float, connect "s1", RoomJoin "R" alice);
    (2000%float, s1_in_R, QueueAdd "R" video1);
    (3000%float, s1_in_R, QueueAdd "R" video2);
    (4000%float, s1_in_R, QueueChangeVideo "R" (-9007199254740994)) ].

(** *** Chat *)

(** The last [n] elements of a list, in their order. *)
Definition last_n {A} (n : nat) (l : list A) : list A :=
  drop (length l - n) l.

(** Every input is a chat message sent to [roomId]. *)
Definition chat_sends_to (roomId : string) (inputs : list Input) : Prop :=
  Forall (λ i : Input, ∃ message, i.2 = ChatSend roomId message) inputs.

(** The messages of a sequence of inputs, in order of arrival. *)
Definition sent (inputs : list Input) : list ChatMessage.t :=
  omap (λ i : Input,
          match i.2 with
          | ChatSend _ message => Some message
          | _ => None
          end) inputs.

(** What holds of every room the server can reach: at most 100 messages, and
    a vote list without repetitions. *)
Definition room_ok (r : Room) : Prop :=
  (length (messages r) ≤ 100)%nat ∧ NoDup (votes r).

(** A chat message numbered [n]. *)
Definition msg (n : nat) : ChatMessage.t :=
  {| ChatMessage.id := pretty n; ChatMessage.senderId := "a";
     ChatMessage.senderName := "Alice"; ChatMessage.content := "hello";
     ChatMessage.timestamp := 1000%float; ChatMessage.isSystem := None |}.

(** Messages [from], [from + 1], ..., [from + count - 1] sent to room R. *)
Definition chat_inputs (from count : nat) : list Input :=
  (λ n, (1000%float, connect "s1", ChatSend "R" (msg n))) <$> seq from count.

(** *** Client *)

(** A play event broadcast at 1 700 000 000 000 ms for video time 42.5 s. *)
Definition play_at_42_5 : SyncEvent :=
  {| action := play; videoTime := 42.5%float;
     serverTime := 1700000000000%float; initiator := "s1" |}.

Definition seek_to_42_5 : SyncEvent :=
  {| action := seek; videoTime := 42.5%float;
     serverTime := 1700000000000%float; initiator := "s1" |}.

(** A participant as the room page builds it: the id is a fresh UUID, not
    the socket's id. *)
Definition dana : Participant.t :=
  {| Participant.id := "4f0c2a6e-uuid"; Participant.name := "Dana";
     Participant.isHost := true; Participant.isMuted := false;
     Participant.isCameraOff := false |}.

(** ** Definitions for the properties of the remaining handlers *)

(** The room a handler works on, for the connection that runs it: the room
    id of the payload, or, for 'room:leave' and 'disconnect', the
    connection's current room when it has one. *)
Definition addressed (socket : Connection) (ev : ClientEvent)
  : option string :=
  match ev with
  | RoomJoin roomId _ | ParticipantUpdate roomId _ | PlayerAction roomId _ _
  | QueueAdd roomId _ | QueueRemove roomId _ | QueueChangeVideo roomId _
  | ChatSend roomId _ | VoteNext roomId _ => Some roomId
  | RoomLeave _ | Disconnect =>
      match currentRoomId socket with
      | Some current => if truthy current then Some current else None
      | None => None
      end
  end.

(** Two rooms for the examples: R with two of three votes in, and Q, where
    Sam sits and nobody has touched the queue position. *)
Definition two_rooms : gmap string Room :=
  <[ "Q" := sam_has_not_voted ]> {[ "R" := two_of_three_voted ]}.

(** An event that cannot change a participant's id: anything but a patch
    that carries an [id] field. *)
Definition keeps_ids (ev : ClientEvent) : Prop :=
  match ev with
  | ParticipantUpdate _ updates => Participant.u_id updates = None
  | _ => True
  end.

(** Sam mutes himself. *)
Definition mute : Participant.partial :=
  {| Participant.u_id := None; Participant.u_name := None;
     Participant.u_isHost := None; Participant.u_isMuted := Some true;
     Participant.u_isCameraOff := None |}.

(** A patch that renames the sender's id to Alice's. *)
Definition steal_alice_id : Participant.partial :=
  {| Participant.u_id := Some "a"; Participant.u_name := None;
     Participant.u_isHost := None; Participant.u_isMuted := None;
     Participant.u_isCameraOff := None |}.

Definition video3 : QueueItem.t :=
  {| QueueItem.id := "q3"; QueueItem.videoId := "v3";
     QueueItem.title := "Three"; QueueItem.thumbnail := "t3";
     QueueItem.addedBy := "Carol"; QueueItem.duration := None |}.

(** ** The client's room state: the reducer of the room context *)

Module RoomContext.

Record RoomState := mkState {
  roomId : option string;
  participants : list Participant.t;
  queue : list QueueItem.t;
  messages : list ChatMessage.t;
  votes : list string;
  currentVideoIndex : Z;
  playerState : PlayerState;
  currentTime : float;
  isConnected : bool;
  localParticipant : option Participant.t;
}.

(** [Partial<RoomState>], the payload of SYNC_STATE. *)
Record partial := mkPartial {
  u_roomId : option (option string);
  u_participants : option (list Participant.t);
  u_queue : option (list QueueItem.t);
  u_messages : option (list ChatMessage.t);
  u_votes : option (list string);
  u_currentVideoIndex : option Z;
  u_playerState : option PlayerState;
  u_currentTime : option float;
  u_isConnected : option bool;
  u_localParticipant : option (option Participant.t);
}.

Inductive RoomAction :=
| SET_ROOM_ID (payload : string)
| SET_CONNECTED (payload : bool)
| SET_LOCAL_PARTICIPANT (payload : Participant.t)
| SET_PARTICIPANTS (payload : list Participant.t)
| ADD_PARTICIPANT (payload : Participant.t)
| REMOVE_PARTICIPANT (payload : string)
| UPDATE_PARTICIPANT (id : string) (updates : Participant.partial)
| SET_QUEUE (payload : list QueueItem.t)
| ADD_TO_QUEUE (payload : QueueItem.t)
| REMOVE_FROM_QUEUE (payload : string)
| ADD_MESSAGE (payload : ChatMessage.t)
| SET_MESSAGES (payload : list ChatMessage.t)
| SET_VOTES (payload : list string)
| SET_CURRENT_VIDEO_INDEX (payload : Z)
| SET_PLAYER_STATE (payload : PlayerState)
| SET_CURRENT_TIME (payload : float)
| SYNC_STATE (payload : partial).

Definition initialState : RoomState :=
  {| roomId := None;
     participants := [];
     queue := [];
     messages := [];
     votes := [];
     currentVideoIndex := 0;
     playerState := unstarted;
     currentTime := 0%float;
     isConnected := false;
     localParticipant := None |}.

Definition with_participants (v : list Participant.t) (s : RoomState)
  : RoomState :=
  mkState (roomId s) v (queue s) (messages s) (votes s) (currentVideoIndex s)
          (playerState s) (currentTime s) (isConnected s) (localParticipant s).

Definition with_queue (v : list QueueItem.t) (s : RoomState) : RoomState :=
  mkState (roomId s) (participants s) v (messages s) (votes s)
          (currentVideoIndex s) (playerState s) (currentTime s)
          (isConnected s) (localParticipant s).

Definition with_messages (v : list ChatMessage.t) (s : RoomState)
  : RoomState :=
  mkState (roomId s) (participants s) (queue s) v (votes s)
          (currentVideoIndex s) (playerState s) (currentTime s)
          (isConnected s) (localParticipant s).

Definition with_currentVideoIndex (v : Z) (s : RoomState) : RoomState :=
  mkState (roomId s) (participants s) (queue s) (messages s) (votes s) v
          (playerState s) (currentTime s) (isConnected s) (localParticipant s).

(** [roomReducer(state, action)] *)
Definition roomReducer (state : RoomState) (action : RoomAction) : RoomState :=
  match action with
  | SET_ROOM_ID payload =>
      mkState (Some payload) (participants state) (queue state)
        (messages state) (votes state) (currentVideoIndex state)
        (playerState state) (currentTime state) (isConnected state)
        (localParticipant state)
  | SET_CONNECTED payload =>
      mkState (roomId state) (participants state) (queue state)
        (messages state) (votes state) (currentVideoIndex state)
        (playerState state) (currentTime state) payload
        (localParticipant state)
  | SET_LOCAL_PARTICIPANT payload =>
      mkState (roomId state) (participants state) (queue state)
        (messages state) (votes state) (currentVideoIndex state)
        (playerState state) (currentTime state) (isConnected state)
        (Some payload)
  | SET_PARTICIPANTS payload => with_participants payload state
  | ADD_PARTICIPANT payload =>
      match List.find
              (λ p, bool_decide (Participant.id p = Participant.id payload))
              (participants state) with
      | Some _ => state
      | None => with_participants (participants state ++ [payload]) state
      end
  | REMOVE_PARTICIPANT payload =>
      with_participants
        (filter (λ p, Participant.id p ≠ payload) (participants state)) state
  | UPDATE_PARTICIPANT id updates =>
      with_participants
        ((λ p, if bool_decide (Participant.id p = id)
               then Participant.assign p updates else p)
           <$> participants state) state
  | SET_QUEUE payload => with_queue payload state
  | ADD_TO_QUEUE payload => with_queue (queue state ++ [payload]) state
  | REMOVE_FROM_QUEUE payload =>
      with_queue (filter (λ item, QueueItem.id item ≠ payload) (queue state))
        state
  | ADD_MESSAGE payload => with_messages (messages state ++ [payload]) state
  | SET_MESSAGES payload => with_messages payload state
  | SET_VOTES payload =>
      mkState (roomId state) (participants state) (queue state)
        (messages state) payload (currentVideoIndex state)
        (playerState state) (currentTime state) (isConnected state)
        (localParticipant state)
  | SET_CURRENT_VIDEO_INDEX payload => with_currentVideoIndex payload state
  | SET_PLAYER_STATE payload =>
      mkState (roomId state) (participants state) (queue state)
        (messages state) (votes state) (currentVideoIndex state)
        payload (currentTime state) (isConnected state)
        (localParticipant state)
  | SET_CURRENT_TIME payload =>
      mkState (roomId state) (participants state) (queue state)
        (messages state) (votes state) (currentVideoIndex state)
        (playerState state) payload (isConnected state)
        (localParticipant state)
  | SYNC_STATE payload =>
      mkState (default (roomId state) (u_roomId payload))
        (default (participants state) (u_participants payload))
        (default (queue state) (u_queue payload))
        (default (messages state) (u_messages payload))
        (default (votes state) (u_votes payload))
        (default (currentVideoIndex state) (u_currentVideoIndex payload))
        (default (playerState state) (u_playerState payload))
        (default (currentTime state) (u_currentTime payload))
        (default (isConnected state) (u_isConnected payload))
        (default (localParticipant state) (u_localParticipant payload))
  end.

(** [state.queue[state.currentVideoIndex] || null] *)
Definition currentVideo (state : RoomState) : option QueueItem.t :=
  if 0 <=? currentVideoIndex state
  then queue state !! Z.to_nat (currentVideoIndex state)
  else None.

(** [nextVideo] and [previousVideo], with the dispatch applied. *)
Definition nextVideo (state : RoomState) : RoomState :=
  if currentVideoIndex state <? len (queue state) - 1
  then roomReducer state
         (SET_CURRENT_VIDEO_INDEX (increment (currentVideoIndex state)))
  else state.

Definition previousVideo (state : RoomState) : RoomState :=
  if 0 <? currentVideoIndex state
  then roomReducer state
         (SET_CURRENT_VIDEO_INDEX (decrement (currentVideoIndex state)))
  else state.

End RoomContext.

(** ** The client's socket hook: what it dispatches for each server event *)

Module useSocket.

(** The handlers the hook registers with [socket.on].  It registers none for
    'player:sync' (components subscribe to it themselves) and none for
    'room:votes-updated'. *)
Definition on_server_event (m : ServerMsg) : list RoomContext.RoomAction :=
  match m with
  | RoomJoined data =>
      [ RoomContext.SET_PARTICIPANTS (s_participants data);
        RoomContext.SET_QUEUE (s_queue data);
        RoomContext.SET_MESSAGES (s_messages data);
        RoomContext.SET_CURRENT_VIDEO_INDEX (s_currentVideoIndex data);
        RoomContext.SET_CURRENT_TIME (s_currentTime data) ]
  | ParticipantJoined participant => [ RoomContext.ADD_PARTICIPANT participant ]
  | ParticipantLeft participantId =>
      [ RoomContext.REMOVE_PARTICIPANT participantId ]
  | ParticipantUpdated id updates =>
      [ RoomContext.UPDATE_PARTICIPANT id updates ]
  | QueueUpdated queue => [ RoomContext.SET_QUEUE queue ]
  | QueueVideoChanged index => [ RoomContext.SET_CURRENT_VIDEO_INDEX index ]
  | ChatMsg message => [ RoomContext.ADD_MESSAGE message ]
  | PlayerSync _ => []
  | VotesUpdated _ => []
  end.

(** The client state after one server event, and after several in order. *)
Definition receive (state : RoomContext.RoomState) (m : ServerMsg)
  : RoomContext.RoomState :=
  foldl RoomContext.roomReducer state (on_server_event m).

Definition receive_all (msgs : list ServerMsg) (state : RoomContext.RoomState)
  : RoomContext.RoomState :=
  foldl receive state msgs.

End useSocket.

(** What the transport delivers of a handler's effects to a connection that
    is in [roomId]: to the sender, what was sent to the sender and to the
    room; to any other connection there, what was sent to the room and to
    the others. *)
Definition heard_by_sender (roomId : string) (effs : list Effect)
  : list ServerMsg :=
  omap (λ e, match e with
             | Emit ToSender m => Some m
             | Emit (ToRoom r) m => if bool_decide (r = roomId) then Some m else None
             | _ => None
             end) effs.

Definition heard_by_others (roomId : string) (effs : list Effect)
  : list ServerMsg :=
  omap (λ e, match e with
             | Emit (ToRoom r) m | Emit (ToOthers r) m =>
                 if bool_decide (r = roomId) then Some m else None
             | _ => None
             end) effs.

(** The events after which an observing client's roster is still the
    server's: a join must bring a new id (the client ignores a participant
    whose id it already lists, the server overwrites the entry), and a patch
    needs a roster with distinct ids (the client patches every entry with the
    id, the server the first). *)
Definition roster_observable (ev : ClientEvent) (roster : list Participant.t)
  : Prop :=
  match ev with
  | RoomJoin _ participant =>
      ∀ q, q ∈ roster → Participant.id q ≠ Participant.id participant
  | ParticipantUpdate _ _ => NoDup (ids roster)
  | _ => True
  end.

(** A client that has just loaded the room page and knows nothing yet. *)
Definition fresh_client : RoomContext.RoomState := RoomContext.initialState.

(** A client whose roster, queue and index are those of [two_of_three_voted]. *)
Definition client_of_R : RoomContext.RoomState :=
  RoomContext.with_queue [video1; video2]
    (RoomContext.with_participants [alice; bob; carol]
       RoomContext.initialState).

(** ** The player component: reacting to the player's state changes *)

Module YouTubePlayer.

(** What [handleStateChange] reads of the player. *)
Record YTPlayer := mkPlayer {
  getCurrentTime : float;
  getDuration : float;
}.

(** [YT_PLAYER_STATE] *)
Definition UNSTARTED : Z := -1.
Definition ENDED : Z := 0.
Definition PLAYING : Z := 1.
Definition PAUSED : Z := 2.
Definition BUFFERING : Z := 3.
Definition CUED : Z := 5.

Inductive Effect :=
| setDuration (d : float)
| dispatch (a : RoomContext.RoomAction)
| sendPlayerAction (action : Action) (videoTime : float).

(** [handleStateChange(event)], with [event.target] and [event.data];
    [isLocalAction] is [isLocalActionRef.current], returned with its new
    value. *)
Definition handleStateChange (isLocalAction : bool) (player : YTPlayer)
    (playerState : Z) : bool * list Effect :=
  let duration :=
    if (playerState =? PLAYING) || (playerState =? PAUSED)
    then [ setDuration (getDuration player) ]
    else [] in
  if playerState =? ENDED then
    (isLocalAction,
     duration ++ [ dispatch (RoomContext.SET_PLAYER_STATE ended) ])
  else if negb isLocalAction then (isLocalAction, duration)
  else
    let currentTime := getCurrentTime player in
    (false,
     duration ++
     if playerState =? PLAYING then
       [ dispatch (RoomContext.SET_PLAYER_STATE playing);
         sendPlayerAction play currentTime ]
     else if playerState =? PAUSED then
       [ dispatch (RoomContext.SET_PLAYER_STATE paused);
         sendPlayerAction pause currentTime ]
     else if playerState =? BUFFERING then
       [ dispatch (RoomContext.SET_PLAYER_STATE buffering) ]
     else []).

(** A run of state changes, the flag threaded through. *)
Fixpoint handleStateChanges (isLocalAction : bool)
    (events : list (YTPlayer * Z)) : bool * list Effect :=
  match events with
  | [] => (isLocalAction, [])
  | (player, playerState) :: events' =>
      let '(flag, effects) :=
        handleStateChange isLocalAction player playerState in
      let '(flag', effects') := handleStateChanges flag events' in
      (flag', effects ++ effects')
  end.

Definition is_send (e : Effect) : bool :=
  match e with
  | sendPlayerAction _ _ => true
  | _ => false
  end.

End YouTubePlayer.

(** A client of [roomId] listening while other connections act: the server
    handles each input in turn and the client receives what each handler
    sends to the others of the room. *)
Fixpoint observe (roomId : string) (inputs : list Input)
    (rooms : gmap string Room) (state : RoomContext.RoomState)
  : gmap string Room * RoomContext.RoomState :=
  match inputs with
  | [] => (rooms, state)
  | (now, socket, ev) :: inputs' =>
      let result := handle now socket ev rooms in
      observe roomId inputs' result.1.1
        (useSocket.receive_all (heard_by_others roomId result.2) state)
  end.

(** Others at work in rooms R and Q while a client of R listens. *)
Definition busy_evening : list Input :=
  [ (1000%float, connect "s2", QueueAdd "R" video3);
    (2000%float, connect "s9", QueueChangeVideo "Q" 1);
    (3000%float, connect "s3", VoteNext "R" "c");
    (4000%float, connect "s2", QueueRemove "R" "q1");
    (5000%float, connect "s3", ChatSend "R" (msg 1));
    (6000%float, connect "s2", QueueChangeVideo "R" 0) ].

(** ** The queue component: local update, then the request to the server *)

Module QueueComponent.

(** The hook's [addToQueue], [removeFromQueue] and [changeVideo]: each emits
    its event when the socket exists and the room id is truthy.
    [socketRef] tells whether [socketRef.current] is set. *)
Definition emit (socketRef : bool) (roomId : string) (ev : ClientEvent)
  : list ClientEvent :=
  if socketRef && truthy roomId then [ ev ] else [].

(** The end of [handleAddFromSearch] and of [handleAddFromUrl], once the
    queue item is built: dispatch, then [addToQueue]. *)
Definition addQueueItem (socketRef : bool) (roomId : string)
    (queueItem : QueueItem.t)
  : list RoomContext.RoomAction * list ClientEvent :=
  ([ RoomContext.ADD_TO_QUEUE queueItem ],
   emit socketRef roomId (QueueAdd roomId queueItem)).

Definition handleRemove (socketRef : bool) (roomId itemId : string)
  : list RoomContext.RoomAction * list ClientEvent :=
  ([ RoomContext.REMOVE_FROM_QUEUE itemId ],
   emit socketRef roomId (QueueRemove roomId itemId)).

Definition handleSelectVideo (socketRef : bool) (roomId : string) (index : Z)
  : list RoomContext.RoomAction * list ClientEvent :=
  ([ RoomContext.SET_CURRENT_VIDEO_INDEX index ],
   emit socketRef roomId (QueueChangeVideo roomId index)).

End QueueComponent.

(** A user action of the queue component, carried through: the local
    dispatch, the server handling what was emitted (by [socket], at [now]),
    and the delivery to the acting client of what the server sent it.
    Returns the client state after the dispatch, the registry afterwards and
    the client state after the delivery. *)
Definition act (now : float) (socket : Connection) (roomId : string)
    (action : list RoomContext.RoomAction * list ClientEvent)
    (rooms : gmap string Room) (state : RoomContext.RoomState)
  : RoomContext.RoomState * gmap string Room * RoomContext.RoomState :=
  let optimistic := foldl RoomContext.roomReducer state action.1 in
  let served :=
    foldl (λ acc ev,
             let result := handle now socket ev acc.1 in
             (result.1.1, acc.2 ++ heard_by_sender roomId result.2))
          (rooms, []) action.2 in
  (optimistic, served.1, useSocket.receive_all served.2 optimistic).

(** Which events may change which part of a room. *)
Definition writes_roster (ev : ClientEvent) : bool :=
  match ev with
  | RoomJoin _ _ | RoomLeave _ | Disconnect | ParticipantUpdate _ _ => true
  | _ => false
  end.

Definition writes_queue (ev : ClientEvent) : bool :=
  match ev with
  | QueueAdd _ _ | QueueRemove _ _ => true
  | _ => false
  end.

Definition writes_index (ev : ClientEvent) : bool :=
  match ev with
  | QueueChangeVideo _ _ | VoteNext _ _ => true
  | _ => false
  end.

Definition writes_playback (ev : ClientEvent) : bool :=
  match ev with
  | PlayerAction _ _ _ | QueueChangeVideo _ _ | VoteNext _ _ => true
  | _ => false
  end.

(** Sam has voted, with Alice; Bob has not. *)
Definition sam_has_voted : Room :=
  set_votes ["a"; "s1"] sam_has_not_voted.
(** * Properties *)

(** Case analysis on a hypothesis [H : x ∈ [a; b; ...]] over an explicit
    list: one goal per element that [x] can be. *)
Ltac elem_of_cases H :=
  repeat (apply elem_of_cons in H as [H|H]; simplify_eq);
  try (by apply not_elem_of_nil in H).

(** ** The registry *)

Section registry.
Implicit Types (rooms : gmap string Room) (roomId : string).

Lemma getRoom_fst rooms roomId :
  (getRoom roomId rooms).1 = default newRoom (rooms !! roomId).
Proof. unfold getRoom. by destruct (rooms !! roomId). Qed.

Lemma getRoom_lookup rooms roomId :
  (getRoom roomId rooms).2 !! roomId = Some (getRoom roomId rooms).1.
Proof.
  unfold getRoom. destruct (rooms !! roomId) eqn:E; simpl; [done|].
  apply lookup_insert_eq.
Qed.

Lemma getRoom_lookup_ne rooms roomId other :
  roomId ≠ other → (getRoom roomId rooms).2 !! other = rooms !! other.
Proof.
  intros Hne. unfold getRoom. destruct (rooms !! roomId); simpl; [done|].
  by apply lookup_insert_ne.
Qed.

(** Writing a room back and asking for it again gives that room. *)
Lemma room_of_insert rooms roomId (r : Room) :
  room_of (<[roomId := r]> rooms) roomId = r.
Proof. unfold room_of. by rewrite getRoom_fst, lookup_insert_eq. Qed.

Lemma room_of_insert_ne rooms roomId other (r : Room) :
  roomId ≠ other → room_of (<[roomId := r]> rooms) other = room_of rooms other.
Proof.
  intros Hne. unfold room_of. by rewrite !getRoom_fst, lookup_insert_ne.
Qed.

Lemma room_of_getRoom rooms roomId other :
  room_of (getRoom roomId rooms).2 other = room_of rooms other.
Proof.
  unfold room_of. rewrite !getRoom_fst.
  destruct (decide (roomId = other)) as [->|Hne].
  - by rewrite getRoom_lookup, getRoom_fst.
  - by rewrite getRoom_lookup_ne.
Qed.

(** A property of rooms that the fresh room has survives [getRoom]. *)
Lemma getRoom_Forall (P : Room → Prop) rooms roomId :
  P newRoom → map_Forall (λ _, P) rooms →
  P (getRoom roomId rooms).1 ∧ map_Forall (λ _, P) (getRoom roomId rooms).2.
Proof.
  intros Hnew Hall. unfold getRoom.
  destruct (rooms !! roomId) as [r|] eqn:E; simpl.
  - split; [by apply (Hall roomId)|done].
  - split; [done|]. by apply map_Forall_insert_2.
Qed.

End registry.

(** ** [findIndex] *)

Section findIndex.
Context {A : Type} (f : A → bool).

Lemma findIndex_range (l : list A) : -1 ≤ findIndex f l < len l.
Proof.
  unfold len. induction l as [|x l IH]; simpl; [lia|].
  destruct (f x); [lia|].
  destruct (Z.ltb_spec (findIndex f l) 0); lia.
Qed.

(** A non-negative result is the first position that satisfies [f]. *)
Lemma findIndex_found (l : list A) :
  0 ≤ findIndex f l →
  ∃ x, l !! Z.to_nat (findIndex f l) = Some x ∧ f x = true ∧
       ∀ j y, (j < Z.to_nat (findIndex f l))%nat → l !! j = Some y → f y = false.
Proof.
  induction l as [|x l IH]; simpl; [lia|].
  destruct (f x) eqn:Hx.
  - intros _. exists x. split; [done|]. split; [done|]. intros j y Hj. lia.
  - destruct (Z.ltb_spec (findIndex f l) 0) as [Hlt|Hge]; [lia|].
    intros _. destruct (IH Hge) as (y & Hy & Hfy & Hfirst).
    exists y.
    replace (Z.to_nat (findIndex f l + 1))
      with (S (Z.to_nat (findIndex f l))) by lia.
    split; [done|]. split; [done|].
    intros [|j] z Hj Hz; simpl in Hz.
    + by simplify_eq.
    + apply (Hfirst j); [lia|done].
Qed.

(** A negative result means that no element satisfies [f]. *)
Lemma findIndex_none (l : list A) :
  findIndex f l < 0 ↔ ∀ x, x ∈ l → f x = false.
Proof.
  induction l as [|x l IH]; simpl.
  - split; [|lia]. intros _ y Hy. by apply not_elem_of_nil in Hy.
  - destruct (f x) eqn:Hx.
    + split; [lia|]. intros H.
      specialize (H x (list_elem_of_here _ _)). congruence.
    + destruct (Z.ltb_spec (findIndex f l) 0) as [Hlt|Hge].
      * split; [|lia]. intros _ y Hy.
        apply elem_of_cons in Hy as [->|Hy]; [done|]. by apply IH.
      * split; [lia|]. intros H. exfalso.
        assert (findIndex f l < 0); [|lia].
        apply IH. intros y Hy. apply H. by apply list_elem_of_further.
Qed.

End findIndex.

(** ** Participant roster: join *)

Lemma on_room_join_rooms socket roomId participant rooms :
  (on_room_join socket roomId participant rooms).1.1 =
  <[roomId := set_participants
                (joined participant (participants (room_of rooms roomId)))
                (room_of rooms roomId)]> (getRoom roomId rooms).2.
Proof.
  unfold on_room_join, room_of, joined.
  destruct (getRoom roomId rooms) as [room rooms1]; simpl.
  by destruct (0 <=? _).
Qed.

Lemma on_room_join_participants socket roomId participant rooms :
  participants (room_of (on_room_join socket roomId participant rooms).1.1 roomId)
  = joined participant (participants (room_of rooms roomId)).
Proof. by rewrite on_room_join_rooms, room_of_insert. Qed.

Section joined.
Variable participant : Participant.t.
Implicit Types (l : list Participant.t).

Let same_id (p : Participant.t) : bool :=
  bool_decide (Participant.id p = Participant.id participant).

Lemma joined_replace l i q :
  l !! i = Some q →
  Participant.id q = Participant.id participant →
  (∀ j q', (j < i)%nat → l !! j = Some q' →
           Participant.id q' ≠ Participant.id participant) →
  joined participant l = <[i := participant]> l.
Proof.
  intros Hi Hq Hfirst. unfold joined. fold same_id.
  destruct (Z.leb_spec 0 (findIndex same_id l)) as [Hge|Hlt].
  - destruct (findIndex_found same_id l Hge) as (x & Hx & Hfx & Hmin).
    destruct (Nat.lt_trichotomy i (Z.to_nat (findIndex same_id l)))
      as [Hlt|[Heq|Hgt]].
    + specialize (Hmin i q Hlt Hi). unfold same_id in Hmin.
      rewrite bool_decide_eq_false in Hmin. done.
    + by rewrite Heq.
    + exfalso. apply (Hfirst _ x Hgt Hx).
      unfold same_id in Hfx. by rewrite bool_decide_eq_true in Hfx.
  - exfalso. assert (same_id q = false) as Hf.
    { apply (findIndex_none same_id l); [lia|]. by eapply list_elem_of_lookup_2. }
    unfold same_id in Hf. by rewrite bool_decide_eq_false in Hf.
Qed.

Lemma joined_append l :
  (∀ q, q ∈ l → Participant.id q ≠ Participant.id participant) →
  joined participant l = l ++ [participant].
Proof.
  intros Habsent. unfold joined. fold same_id.
  destruct (Z.leb_spec 0 (findIndex same_id l)) as [Hge|Hlt]; [|done].
  destruct (findIndex_found same_id l Hge) as (x & Hx & Hfx & _).
  exfalso. apply (Habsent x); [by eapply list_elem_of_lookup_2|].
  unfold same_id in Hfx. by rewrite bool_decide_eq_true in Hfx.
Qed.

(** Either the ids are as before (replacement) or the new id, which was
    absent, is added at the end. *)
Lemma joined_ids l :
  ids (joined participant l) = ids l ∧ Participant.id participant ∈ ids l
  ∨ ids (joined participant l) = ids l ++ [Participant.id participant]
    ∧ Participant.id participant ∉ ids l.
Proof.
  unfold joined. fold same_id.
  destruct (Z.leb_spec 0 (findIndex same_id l)) as [Hge|Hlt].
  - left. destruct (findIndex_found same_id l Hge) as (x & Hx & Hfx & _).
    unfold same_id in Hfx. rewrite bool_decide_eq_true in Hfx.
    unfold ids. rewrite list_fmap_insert. split.
    + apply list_insert_id. by rewrite list_lookup_fmap, Hx, <- Hfx.
    + rewrite <- Hfx. apply list_elem_of_fmap_2. by eapply list_elem_of_lookup_2.
  - right. unfold ids. rewrite fmap_app. split; [done|].
    intros (q & Hq & Hin)%list_elem_of_fmap.
    assert (same_id q = false) as Hf by (apply (findIndex_none same_id l); [lia|done]).
    unfold same_id in Hf. rewrite bool_decide_eq_false in Hf. congruence.
Qed.

Lemma joined_NoDup l : NoDup (ids l) → NoDup (ids (joined participant l)).
Proof.
  intros Hnd. destruct (joined_ids l) as [[-> _]|[-> Hnotin]]; [done|].
  apply NoDup_app. split; [done|]. split; [|apply NoDup_singleton].
  intros x Hx ->%list_elem_of_singleton. done.
Qed.

End joined.

Lemma joins_NoDup roomId inputs rooms :
  joins_to roomId inputs →
  NoDup (ids (participants (room_of rooms roomId))) →
  NoDup (ids (participants (room_of (steps inputs rooms) roomId))).
Proof.
  unfold steps. revert rooms.
  induction inputs as [|[[now socket] ev] inputs IH]; intros rooms Hjoins Hnd;
    simpl; [done|].
  apply Forall_cons in Hjoins as [[participant Hev] Hjoins]. simpl in Hev.
  subst ev. apply IH; [done|].
  unfold step; simpl. rewrite on_room_join_participants.
  by apply joined_NoDup.
Qed.

(** C9 (roster uniqueness).  A join whose participant id is already in the
    roster overwrites that entry where it stands (the first one with that
    id): the roster keeps its length and every other position; a join with
    a new id appends the participant.  Hence any sequence of joins to one
    room, from server start or from any roster with pairwise distinct ids,
    leaves a roster with pairwise distinct ids. *)
Theorem join_replaces_in_place_or_appends :
  (∀ socket roomId participant rooms i q,
     let before := participants (room_of rooms roomId) in
     let after :=
       participants
         (room_of (on_room_join socket roomId participant rooms).1.1 roomId) in
     before !! i = Some q →
     Participant.id q = Participant.id participant →
     (∀ j q', (j < i)%nat → before !! j = Some q' →
              Participant.id q' ≠ Participant.id participant) →
     after = <[i := participant]> before
     ∧ length after = length before
     ∧ after !! i = Some participant
     ∧ ∀ j, j ≠ i → after !! j = before !! j)
  ∧ (∀ socket roomId participant rooms,
     let before := participants (room_of rooms roomId) in
     let after :=
       participants
         (room_of (on_room_join socket roomId participant rooms).1.1 roomId) in
     (∀ q, q ∈ before → Participant.id q ≠ Participant.id participant) →
     after = before ++ [participant])
  ∧ (∀ roomId inputs,
     joins_to roomId inputs →
     NoDup (ids (participants (room_of (steps inputs ∅) roomId))))
  ∧ (∀ roomId inputs rooms,
     joins_to roomId inputs →
     NoDup (ids (participants (room_of rooms roomId))) →
     NoDup (ids (participants (room_of (steps inputs rooms) roomId)))).
Proof.
  repeat split.
  - rewrite on_room_join_participants. by apply joined_replace with q.
  - rewrite on_room_join_participants, (joined_replace _ _ i q) by done.
    apply length_insert.
  - rewrite on_room_join_participants, (joined_replace _ _ i q) by done.
    apply list_lookup_insert_eq. by eapply lookup_lt_Some.
  - intros j Hj.
    rewrite on_room_join_participants, (joined_replace _ _ i q) by done.
    by apply list_lookup_insert_ne.
  - intros socket roomId participant rooms before after Habsent.
    subst before after. rewrite on_room_join_participants.
    by apply joined_append.
  - intros roomId inputs Hjoins. apply joins_NoDup; [done|].
    unfold room_of. rewrite getRoom_fst, lookup_empty. simpl. apply NoDup_nil_2.
  - intros roomId inputs rooms. apply joins_NoDup.
Qed.

Example rejoin_keeps_position :
  participants (room_of (steps three_joins_and_a_rejoin ∅) "R")
  = [alice'; bob; carol].
Proof. vm_compute. reflexivity. Qed.

Lemma join_replaces_in_place_or_appends_witness :
  NoDup (ids (participants (room_of (steps three_joins_and_a_rejoin ∅) "R"))).
Proof.
  apply (proj1 (proj2 (proj2 join_replaces_in_place_or_appends))).
  unfold three_joins_and_a_rejoin, joins_to.
  repeat (apply Forall_cons; split; [eexists; reflexivity|]).
  apply Forall_nil_2.
Defined.

(** The first participant of a room receives the fresh room with only
    themselves in the roster (the snapshot is taken after the roster update);
    nobody else is in the room to be notified. *)
Example first_join_snapshot :
  (on_room_join (connect "s1") "R" alice ∅).2
  = [ SocketJoin "R";
      Emit ToSender
        (RoomJoined (mkSnapshot [alice] [] [] [] 0 paused 0%float));
      Emit (ToOthers "R") (ParticipantJoined alice) ]
  ∧ currentRoomId (on_room_join (connect "s1") "R" alice ∅).1.2 = Some "R".
Proof. split; vm_compute; reflexivity. Qed.

(** ** Participant roster: leave *)

Lemma filter_absent_id (id : string) (l : list Participant.t) :
  (∀ p, p ∈ l → Participant.id p ≠ id) →
  filter (λ p, Participant.id p ≠ id) l = l.
Proof.
  intros Habsent. induction l as [|p l IH]; [done|].
  rewrite filter_cons_True by (apply Habsent; left).
  f_equal. apply IH. intros q Hq. apply Habsent. by right.
Qed.

Lemma truthy_spec (s : string) : truthy s = true ↔ s ≠ EmptyString.
Proof.
  unfold truthy. rewrite negb_true_iff, bool_decide_eq_false. done.
Qed.

(** What both leave paths do to the [rooms] map. *)
Lemma on_room_leave_joined socket payload current rooms :
  currentRoomId socket = Some current → current ≠ EmptyString →
  on_room_leave socket payload rooms =
  (<[current := remove_participant (socket_id socket) (room_of rooms current)]>
     (getRoom current rooms).2,
   {| socket_id := socket_id socket; currentRoomId := None |},
   [ Emit (ToOthers current) (ParticipantLeft (socket_id socket));
     SocketLeave current ]).
Proof.
  intros Hcur Hne. unfold on_room_leave, room_of. rewrite Hcur.
  apply truthy_spec in Hne as ->.
  by destruct (getRoom current rooms).
Qed.

Lemma on_disconnect_joined socket current rooms :
  currentRoomId socket = Some current → current ≠ EmptyString →
  on_disconnect socket rooms =
  (<[current := remove_participant (socket_id socket) (room_of rooms current)]>
     (getRoom current rooms).2,
   socket,
   [ Emit (ToOthers current) (ParticipantLeft (socket_id socket)) ]).
Proof.
  intros Hcur Hne. unfold on_disconnect, room_of. rewrite Hcur.
  apply truthy_spec in Hne as ->.
  by destruct (getRoom current rooms).
Qed.


Example leave_scenario :
  participants
    (room_of (handle 5000%float s1_in_R (RoomLeave "R")
                {[ "R" := room_with_sam ]}).1.1 "R")
  = [alice; bob]
  ∧ (handle 5000%float s1_in_R (RoomLeave "R") {[ "R" := room_with_sam ]}).2
    = [ Emit (ToOthers "R") (ParticipantLeft "s1"); SocketLeave "R" ].
Proof. split; vm_compute; reflexivity. Qed.


(** The roster is filtered on the socket's id, whatever id the connection's
    participant joined under: a participant who joined under another id
    stays in the roster when the connection closes. *)
Example leave_goes_by_socket_id :
  let joined_rooms := (on_room_join (connect "s1") "R" dana ∅).1.1 in
  participants (room_of (on_disconnect s1_in_R joined_rooms).1.1 "R") = [dana]
  ∧ (on_disconnect s1_in_R joined_rooms).2
    = [ Emit (ToOthers "R") (ParticipantLeft "s1") ].
Proof. split; vm_compute; reflexivity. Qed.

(** A connection that is in no room leaves nothing and emits nothing. *)
Lemma leave_without_room socket payload rooms :
  currentRoomId socket = None →
  on_room_leave socket payload rooms = (rooms, socket, [])
  ∧ on_disconnect socket rooms = (rooms, socket, []).
Proof. intros Hnone. unfold on_room_leave, on_disconnect. by rewrite Hnone. Qed.

(** ** Arithmetic on numbers that hold integers *)

Lemma binary64_round_safe z :
  -9007199254740992 ≤ z → z ≤ 9007199254740992 → binary64_round z = z.
Proof.
  intros Hlo Hhi. unfold binary64_round.
  by rewrite (proj2 (Z.leb_le _ _)) by lia.
Qed.

(** Within ±2^53 the sum is exact. *)
Lemma increment_safe z :
  -9007199254740992 ≤ z → z < 9007199254740992 → increment z = z + 1.
Proof. intros Hlo Hhi. apply binary64_round_safe; lia. Qed.

Lemma decrement_safe z :
  -9007199254740992 < z → z ≤ 9007199254740992 → decrement z = z - 1.
Proof. intros Hlo Hhi. apply binary64_round_safe; lia. Qed.

(** Below -2^53 it is not: the doubles are two apart (then four, ...), the
    exact sum falls between two of them and is rounded. *)
Example increment_rounds :
  increment (-9007199254740994) = -9007199254740992
  ∧ increment (-9007199254740996) = -9007199254740996
  ∧ increment (-1152921504606846976) = -1152921504606846976.
Proof. repeat split; vm_compute; reflexivity. Qed.

(** [increment] and [decrement] against the primitive binary64 addition and
    subtraction, at the edges of the exact range and beyond. *)
Example increment_is_binary64_addition :
  let sample :=
    [ -1152921504606846976; -18014398509481992; -18014398509481988;
      -9007199254740998; -9007199254740996; -9007199254740994;
      -9007199254740992; -9007199254740991; -2; -1; 0; 1; 41;
      4294967295; 9007199254740990; 9007199254740991;
      9007199254740992; 9007199254740994; 18014398509481988 ] in
  map increment sample
  = map (λ z, Z_of_number (number_of_Z z + 1)%float) sample
  ∧ map decrement sample
    = map (λ z, Z_of_number (number_of_Z z - 1)%float) sample
  ∧ (-9007199254740994 + 1 =? -9007199254740992)%float = true
  ∧ (-1152921504606846976 + 1 =? -1152921504606846976)%float = true.
Proof. repeat split; vm_compute; reflexivity. Qed.

(** ** Votes and consensus *)

Section votes.
Implicit Types (s : JSSet.t) (x : string).

Lemma JSSet_add_elem x s : x ∈ JSSet.add x s.
Proof.
  unfold JSSet.add. case_bool_decide; [done|].
  apply elem_of_app. right. by left.
Qed.

Lemma JSSet_add_elem_of x y s : y ∈ JSSet.add x s ↔ y = x ∨ y ∈ s.
Proof.
  unfold JSSet.add. case_bool_decide as Hin.
  - split; [by right|]. by intros [->|?].
  - rewrite elem_of_app, list_elem_of_singleton. tauto.
Qed.

Lemma JSSet_add_nonempty x s : JSSet.add x s ≠ [].
Proof.
  intros Heq. pose proof (JSSet_add_elem x s) as Hin.
  rewrite Heq in Hin. by apply not_elem_of_nil in Hin.
Qed.

(** Voting twice is voting once. *)
Lemma JSSet_add_idemp x s : JSSet.add x (JSSet.add x s) = JSSet.add x s.
Proof.
  unfold JSSet.add at 1. by rewrite bool_decide_eq_true_2 by apply JSSet_add_elem.
Qed.

Lemma JSSet_add_NoDup x s : NoDup s → NoDup (JSSet.add x s).
Proof.
  intros Hnd. unfold JSSet.add. case_bool_decide as Hin; [done|].
  apply NoDup_app. split; [done|]. split; [|apply NoDup_singleton].
  intros y Hy ->%list_elem_of_singleton. done.
Qed.

End votes.

(** The handler with a falsy [participantId]: the early return (after
    [getRoom], which has created the room if it was missing). *)
Lemma on_vote_next_falsy now socket roomId rooms :
  on_vote_next now socket roomId EmptyString rooms
  = ((getRoom roomId rooms).2, socket, []).
Proof. unfold on_vote_next. by destruct (getRoom roomId rooms). Qed.

(** The handler with a truthy [participantId], by branch. *)
Lemma on_vote_next_truthy now socket roomId participantId rooms :
  participantId ≠ EmptyString →
  let room := room_of rooms roomId in
  let voted := JSSet.add participantId (votes room) in
  let announce := Emit (ToRoom roomId) (VotesUpdated voted) in
  on_vote_next now socket roomId participantId rooms =
  if len (participants room) <=? JSSet.size voted then
    if currentVideoIndex room <? len (queue room) - 1 then
      (<[roomId := mkRoom (participants room) (queue room) (messages room) []
                     (increment (currentVideoIndex room)) playing 0%float]>
         (getRoom roomId rooms).2,
       socket,
       [ announce;
         Emit (ToRoom roomId)
           (QueueVideoChanged (increment (currentVideoIndex room)));
         Emit (ToRoom roomId) (VotesUpdated []);
         Emit (ToRoom roomId) (PlayerSync (system_play now)) ])
    else
      (<[roomId := set_votes [] room]> (getRoom roomId rooms).2, socket,
       [ announce; Emit (ToRoom roomId) (VotesUpdated []) ])
  else
    (<[roomId := set_votes voted room]> (getRoom roomId rooms).2, socket,
     [ announce ]).
Proof.
  intros Hne%truthy_spec. unfold on_vote_next, room_of.
  destruct (getRoom roomId rooms) as [room rooms1]. rewrite Hne. simpl.
  destruct (len (participants room) <=? _); [|done].
  by destruct (currentVideoIndex room <? _).
Qed.

Lemma consensus_fired_iff now socket roomId participantId rooms :
  participantId ≠ EmptyString →
  let room := room_of rooms roomId in
  consensus_fired roomId (on_vote_next now socket roomId participantId rooms).2
  ↔ len (participants room) ≤ JSSet.size (JSSet.add participantId (votes room)).
Proof.
  intros Hne room. rewrite on_vote_next_truthy by done. fold room.
  unfold consensus_fired.
  destruct (Z.leb_spec (len (participants room))
              (JSSet.size (JSSet.add participantId (votes room)))) as [Hle|Hlt].
  - split; [lia|]. intros _.
    destruct (currentVideoIndex room <? _); simpl.
    + do 2 right. left.
    + right. left.
  - split; [|lia]. simpl. intros Hin%list_elem_of_singleton.
    injection Hin as Hin. symmetry in Hin. by apply JSSet_add_nonempty in Hin.
Qed.

Lemma consensus_fired_truthy now socket roomId participantId rooms :
  consensus_fired roomId (on_vote_next now socket roomId participantId rooms).2 →
  participantId ≠ EmptyString.
Proof.
  intros Hfired ->. rewrite on_vote_next_falsy in Hfired.
  by apply not_elem_of_nil in Hfired.
Qed.

(** C3 (quorum exactness).  When a vote is cast (the call carries a
    participant id), consensus fires exactly when the vote set, with the new
    vote in it, is at least as large as the roster the room has at that
    moment; when it fires the room's vote set is empty afterwards, in either
    branch, and when it does not the vote set is the one with the new vote. *)
Theorem consensus_iff_quorum :
  ∀ (now : float) (socket : Connection) (roomId participantId : string)
    (rooms : gmap string Room),
    participantId ≠ EmptyString →
    let room := room_of rooms roomId in
    let result := on_vote_next now socket roomId participantId rooms in
    (consensus_fired roomId result.2 ↔
     len (participants room)
     ≤ JSSet.size (JSSet.add participantId (votes room)))
    ∧ (consensus_fired roomId result.2 →
       votes (room_of result.1.1 roomId) = [])
    ∧ (¬ consensus_fired roomId result.2 →
       votes (room_of result.1.1 roomId) = JSSet.add participantId (votes room)).
Proof.
  intros now socket roomId participantId rooms Hne room result.
  split; [by apply consensus_fired_iff|].
  subst result. rewrite consensus_fired_iff by done. fold room.
  rewrite on_vote_next_truthy by done. fold room.
  destruct (Z.leb_spec (len (participants room))
              (JSSet.size (JSSet.add participantId (votes room)))) as [Hle|Hlt].
  - split; [|lia]. intros _.
    destruct (currentVideoIndex room <? _); cbn [fst];
      by rewrite room_of_insert.
  - split; [lia|]. intros _. cbn [fst]. by rewrite room_of_insert.
Qed.

(** C4, counterexample.  The handler advances with [++] on a number that
    'queue:change-video' stores without any check.  Alice is alone in room R
    with two videos queued and the index has been set to -9007199254740994;
    her vote makes consensus fire with the index below the last position,
    and the index afterwards, which the video change carries, is
    -9007199254740992: two more, not one, as binary64 addition gives. *)
Lemma advance_from_far_below_adds_two :
  let rooms := steps index_far_below_the_queue ∅ in
  let room := room_of rooms "R" in
  let result := on_vote_next 9000%float s1_in_R "R" "a" rooms in
  consensus_fired "R" result.2
  ∧ currentVideoIndex room = -9007199254740994
  ∧ currentVideoIndex room < len (queue room) - 1
  ∧ currentVideoIndex (room_of result.1.1 "R") = -9007199254740992
  ∧ currentVideoIndex (room_of result.1.1 "R") ≠ currentVideoIndex room + 1
  ∧ result.2
    = [ Emit (ToRoom "R") (VotesUpdated ["a"]);
        Emit (ToRoom "R") (QueueVideoChanged (-9007199254740992));
        Emit (ToRoom "R") (VotesUpdated []);
        Emit (ToRoom "R") (PlayerSync (system_play 9000%float)) ]
  ∧ (-9007199254740994 + 1 =? -9007199254740992)%float = true.
Proof.
  split; [vm_compute; do 2 right; left|].
  repeat split; vm_compute; congruence.
Qed.

(** C4 (advance), as the code has it.  When consensus fires and the current
    video is not the last of the queue, the room afterwards has the index
    that [++] gives, time 0, state playing and no votes (roster, queue and
    chat untouched), and the handler has emitted to the room, after the
    announcement of the vote: the video change with the new index, the
    empty vote set, and a sync event play / 0 / time of the broadcast /
    'system'.  The new index is the old one plus one whenever the old one
    lies within ±2^53, where binary64 addition is exact. *)
Theorem consensus_advances_queue :
  ∀ (now : float) (socket : Connection) (roomId participantId : string)
    (rooms : gmap string Room),
    let room := room_of rooms roomId in
    let result := on_vote_next now socket roomId participantId rooms in
    consensus_fired roomId result.2 →
    currentVideoIndex room < len (queue room) - 1 →
    room_of result.1.1 roomId
    = {| participants := participants room;
         queue := queue room;
         messages := messages room;
         votes := [];
         currentVideoIndex := increment (currentVideoIndex room);
         playerState := playing;
         currentTime := 0%float |}
    ∧ result.2
      = [ Emit (ToRoom roomId)
            (VotesUpdated (JSSet.add participantId (votes room)));
          Emit (ToRoom roomId)
            (QueueVideoChanged (increment (currentVideoIndex room)));
          Emit (ToRoom roomId) (VotesUpdated []);
          Emit (ToRoom roomId)
            (PlayerSync {| action := play; videoTime := 0%float;
                           serverTime := now; initiator := "system" |}) ]
    ∧ (-9007199254740992 ≤ currentVideoIndex room < 9007199254740992 →
       currentVideoIndex (room_of result.1.1 roomId)
       = currentVideoIndex room + 1
       ∧ Emit (ToRoom roomId) (QueueVideoChanged (currentVideoIndex room + 1))
         ∈ result.2).
Proof.
  intros now socket roomId participantId rooms room result Hfired Hidx.
  pose proof (consensus_fired_truthy _ _ _ _ _ Hfired) as Hne.
  apply consensus_fired_iff in Hfired; [|done]. fold room in Hfired.
  subst result. rewrite on_vote_next_truthy by done. fold room.
  rewrite (proj2 (Z.leb_le _ _)) by done.
  rewrite (proj2 (Z.ltb_lt _ _)) by done.
  cbn [fst snd]. rewrite room_of_insert.
  split; [done|]. split; [done|].
  intros [Hlo Hhi]. rewrite increment_safe by done.
  split; [done|]. right. left.
Qed.

(** C5 (end of queue).  When consensus fires and the current index is at or
    past the last queue position, the room afterwards differs only in its
    vote set, which is empty; the handler has emitted the announcement of
    the vote and then the empty vote set, and nothing else: no sync event
    and no video change. *)
Theorem consensus_at_end_of_queue :
  ∀ (now : float) (socket : Connection) (roomId participantId : string)
    (rooms : gmap string Room),
    let room := room_of rooms roomId in
    let result := on_vote_next now socket roomId participantId rooms in
    consensus_fired roomId result.2 →
    len (queue room) - 1 ≤ currentVideoIndex room →
    room_of result.1.1 roomId = set_votes [] room
    ∧ currentVideoIndex (room_of result.1.1 roomId) = currentVideoIndex room
    ∧ result.2
      = [ Emit (ToRoom roomId)
            (VotesUpdated (JSSet.add participantId (votes room)));
          Emit (ToRoom roomId) (VotesUpdated []) ]
    ∧ (∀ t e, Emit t (PlayerSync e) ∉ result.2)
    ∧ (∀ t i, Emit t (QueueVideoChanged i) ∉ result.2).
Proof.
  intros now socket roomId participantId rooms room result Hfired Hidx.
  pose proof (consensus_fired_truthy _ _ _ _ _ Hfired) as Hne.
  apply consensus_fired_iff in Hfired; [|done]. fold room in Hfired.
  subst result. rewrite on_vote_next_truthy by done. fold room.
  rewrite (proj2 (Z.leb_le _ _)) by done.
  rewrite (proj2 (Z.ltb_ge _ _)) by done.
  cbn [fst snd]. rewrite room_of_insert.
  split; [done|]. split; [done|]. split; [done|].
  split; intros t x Hin; elem_of_cases Hin.
Qed.

(** Two of three voted: a third, distinct vote completes the quorum and the
    queue advances. *)
Example third_vote_advances :
  let result :=
    on_vote_next 9000%float (connect "s3") "R" "c"
      {[ "R" := two_of_three_voted ]} in
  currentVideoIndex (room_of result.1.1 "R") = 1
  ∧ votes (room_of result.1.1 "R") = []
  ∧ playerState (room_of result.1.1 "R") = playing
  ∧ result.2
    = [ Emit (ToRoom "R") (VotesUpdated ["a"; "b"; "c"]);
        Emit (ToRoom "R") (QueueVideoChanged 1);
        Emit (ToRoom "R") (VotesUpdated []);
        Emit (ToRoom "R") (PlayerSync (system_play 9000%float)) ].
Proof. repeat split; vm_compute; reflexivity. Qed.

(** A repeated vote does not: the set still has two members. *)
Example repeated_vote_is_not_quorum :
  let result :=
    on_vote_next 9000%float (connect "s2") "R" "b"
      {[ "R" := two_of_three_voted ]} in
  votes (room_of result.1.1 "R") = ["a"; "b"]
  ∧ currentVideoIndex (room_of result.1.1 "R") = 0
  ∧ result.2 = [ Emit (ToRoom "R") (VotesUpdated ["a"; "b"]) ].
Proof. repeat split; vm_compute; reflexivity. Qed.

(** The threshold is the roster at the time of the vote: once Sam's
    connection has closed, the two votes already cast suffice at the next
    vote. *)
Example leaving_lowers_the_threshold :
  let rooms := {[ "R" := sam_has_not_voted ]} in
  let before := on_vote_next 9000%float (connect "s9") "R" "a" rooms in
  let left := (on_disconnect s1_in_R rooms).1.1 in
  let after := on_vote_next 9000%float (connect "s9") "R" "a" left in
  ¬ consensus_fired "R" before.2
  ∧ consensus_fired "R" after.2
  ∧ currentVideoIndex (room_of after.1.1 "R") = 1.
Proof.
  split; [|split].
  - rewrite consensus_fired_iff by discriminate. vm_compute. intros H. by apply H.
  - rewrite consensus_fired_iff by discriminate. vm_compute. discriminate.
  - vm_compute. reflexivity.
Qed.

Lemma consensus_iff_quorum_witness :
  consensus_fired "R"
    (on_vote_next 9000%float (connect "s3") "R" "c"
       {[ "R" := two_of_three_voted ]}).2
  ↔ len (participants (room_of {[ "R" := two_of_three_voted ]} "R"))
    ≤ JSSet.size
        (JSSet.add "c" (votes (room_of {[ "R" := two_of_three_voted ]} "R"))).
Proof.
  apply (consensus_iff_quorum 9000%float (connect "s3") "R" "c"
           {[ "R" := two_of_three_voted ]}).
  discriminate.
Defined.

Lemma consensus_advances_queue_witness :
  currentVideoIndex
    (room_of (on_vote_next 9000%float (connect "s3") "R" "c"
                {[ "R" := two_of_three_voted ]}).1.1 "R")
  = 1
  ∧ Emit (ToRoom "R") (QueueVideoChanged 1)
    ∈ (on_vote_next 9000%float (connect "s3") "R" "c"
         {[ "R" := two_of_three_voted ]}).2.
Proof.
  pose proof (consensus_advances_queue 9000%float (connect "s3") "R" "c"
                {[ "R" := two_of_three_voted ]}) as H.
  cbv zeta in H. destruct H as (_ & _ & Hone).
  - vm_compute. do 2 right. left.
  - vm_compute. reflexivity.
  - apply Hone. vm_compute. split; [discriminate|reflexivity].
Defined.

Lemma consensus_at_end_of_queue_witness :
  let result :=
    on_vote_next 9000%float (connect "s3") "R" "c"
      {[ "R" := two_of_three_voted_last ]} in
  currentVideoIndex (room_of result.1.1 "R") = 1
  ∧ result.2
    = [ Emit (ToRoom "R") (VotesUpdated ["a"; "b"; "c"]);
        Emit (ToRoom "R") (VotesUpdated []) ].
Proof.
  pose proof (consensus_at_end_of_queue 9000%float (connect "s3") "R" "c"
                {[ "R" := two_of_three_voted_last ]}) as H.
  cbv zeta in H. destruct H as (_ & Hidx & Heffs & _).
  - vm_compute. right. left.
  - vm_compute. discriminate.
  - split; [rewrite Hidx; reflexivity|rewrite Heffs; reflexivity].
Defined.

(** C2, counterexample.  The handler never consults the roster when it
    records a vote: in a room of Alice, Bob and Carol where nobody has voted,
    a vote under an id that no participant has is recorded like any other. *)
Lemma vote_from_outside_the_roster_is_recorded :
  let rooms : gmap string Room := {[ "R" := nobody_voted ]} in
  let result := on_vote_next 9000%float (connect "s7") "R" "x" rooms in
  (∀ p, p ∈ participants (room_of rooms "R") → Participant.id p ≠ "x")
  ∧ votes (room_of rooms "R") = []
  ∧ votes (room_of result.1.1 "R") = ["x"]
  ∧ result.2 = [ Emit (ToRoom "R") (VotesUpdated ["x"]) ].
Proof.
  split; [|repeat split; vm_compute; reflexivity].
  intros p Hp. vm_compute in Hp. elem_of_cases Hp; discriminate.
Qed.

(** Such a vote counts towards the quorum: with Alice's and Bob's votes in,
    it advances the queue although Carol has not voted. *)
Example outsider_completes_the_quorum :
  let result :=
    on_vote_next 9000%float (connect "s7") "R" "x"
      {[ "R" := two_of_three_voted ]} in
  currentVideoIndex (room_of result.1.1 "R") = 1
  ∧ votes (room_of result.1.1 "R") = [].
Proof. split; vm_compute; reflexivity. Qed.

(** C2, as the code has it.  A call with a non-empty participant id records
    the id whether or not a participant has it: the announcement to the room
    carries the previous votes with the id added, the id among them, and the
    vote set afterwards is exactly that set unless consensus fired, and empty
    if it did; consensus fires exactly when that set is at least as large as
    the roster.  Only a call with an empty id leaves the vote set (and the
    room) unchanged, with nothing emitted.  So after a call every id in the
    vote set is the id just given or was in the set before; membership of
    the roster plays no part. *)
Theorem vote_recorded_without_roster_check :
  ∀ (now : float) (socket : Connection) (roomId participantId : string)
    (rooms : gmap string Room),
    let room := room_of rooms roomId in
    let result := on_vote_next now socket roomId participantId rooms in
    let after := room_of result.1.1 roomId in
    let voted := JSSet.add participantId (votes room) in
    (participantId = EmptyString → after = room ∧ result.2 = [])
    ∧ (participantId ≠ EmptyString →
       (∃ rest,
          result.2 = Emit (ToRoom roomId) (VotesUpdated voted) :: rest)
       ∧ participantId ∈ voted
       ∧ (∀ x, x ∈ voted ↔ x = participantId ∨ x ∈ votes room)
       ∧ (consensus_fired roomId result.2 ↔
          len (participants room) ≤ JSSet.size voted)
       ∧ (¬ consensus_fired roomId result.2 → votes after = voted)
       ∧ (consensus_fired roomId result.2 → votes after = []))
    ∧ (∀ x, x ∈ votes after → x = participantId ∨ x ∈ votes room).
Proof.
  intros now socket roomId participantId rooms room result after voted.
  destruct (decide (participantId = EmptyString)) as [->|Hne].
  - assert (after = room ∧ result.2 = []) as [Hafter Heffs].
    { subst after result. rewrite on_vote_next_falsy. cbn [fst snd].
      by rewrite room_of_getRoom. }
    split; [done|]. split; [done|]. rewrite Hafter. by right.
  - split; [done|].
    pose proof (consensus_fired_iff now socket roomId participantId rooms Hne)
      as Hiff.
    cbv zeta in Hiff. fold room voted result in Hiff.
    assert ((len (participants room) ≤ JSSet.size voted → votes after = [])
            ∧ (¬ len (participants room) ≤ JSSet.size voted →
               votes after = voted)) as [Hfired Hnot].
    { subst after result. rewrite on_vote_next_truthy by done.
      fold room voted.
      destruct (Z.leb_spec (len (participants room)) (JSSet.size voted));
        [destruct (currentVideoIndex room <? _)|];
        cbn [fst]; rewrite room_of_insert; split; intros; (done || lia). }
    split.
    + intros _. split.
      { subst result. rewrite on_vote_next_truthy by done. fold room voted.
        destruct (len (participants room) <=? _);
          [destruct (currentVideoIndex room <? _)|]; cbn [snd]; eauto. }
      split; [apply JSSet_add_elem|].
      split; [intros x; apply JSSet_add_elem_of|].
      split; [done|]. rewrite Hiff. done.
    + intros x Hx.
      destruct (decide (len (participants room) ≤ JSSet.size voted)) as [H|H].
      * rewrite (Hfired H) in Hx. by apply not_elem_of_nil in Hx.
      * rewrite (Hnot H) in Hx. by apply JSSet_add_elem_of.
Qed.

(** In a room of three where nobody has voted, the vote under the unknown id
    does not make consensus fire and is the vote set afterwards. *)
Lemma vote_recorded_without_roster_check_witness :
  votes
    (room_of (on_vote_next 9000%float (connect "s7") "R" "x"
                {[ "R" := nobody_voted ]}).1.1 "R")
  = ["x"].
Proof.
  pose proof (vote_recorded_without_roster_check 9000%float (connect "s7")
                "R" "x" {[ "R" := nobody_voted ]}) as H.
  cbv zeta in H. destruct H as (_ & Hvote & _).
  destruct Hvote as (_ & _ & _ & Hiff & Hnot & _); [discriminate|].
  rewrite Hnot; [reflexivity|].
  rewrite Hiff. vm_compute. intros Hle. by apply Hle.
Defined.

(** ** Playback sync engine (server side) *)

Lemma on_player_action_eq now socket roomId action videoTime rooms :
  let room := room_of rooms roomId in
  on_player_action now socket roomId action videoTime rooms =
  (<[roomId := mkRoom (participants room) (queue room) (messages room)
                 (votes room) (currentVideoIndex room)
                 match action with
                 | play => playing
                 | pause => paused
                 | seek => playerState room
                 end
                 videoTime]> (getRoom roomId rooms).2,
   socket,
   [ Emit (ToRoom roomId)
       (PlayerSync (mkSync action videoTime now (socket_id socket))) ]).
Proof.
  unfold on_player_action, room_of.
  destruct (getRoom roomId rooms) as [room rooms1]. by destruct action.
Qed.

(** C7 (player actions).  A reported play sets the room to playing, a pause
    to paused, a seek leaves the player state as it was; each of the three
    stores the reported video time as the room's current time, changes
    nothing else in the room, and emits one sync event (the action, the video
    time, the time of the broadcast, the sender's id) addressed to the whole
    room, which reaches every connection in the room, the sender included. *)
Theorem player_action_updates_and_broadcasts :
  ∀ (now : float) (socket : Connection) (roomId : string) (action : Action)
    (videoTime : float) (rooms : gmap string Room),
    let room := room_of rooms roomId in
    let result := on_player_action now socket roomId action videoTime rooms in
    let after := room_of result.1.1 roomId in
    (action = play → playerState after = playing)
    ∧ (action = pause → playerState after = paused)
    ∧ (action = seek → playerState after = playerState room)
    ∧ currentTime after = videoTime
    ∧ after = set_currentTime videoTime (set_playerState (playerState after) room)
    ∧ result.2
      = [ Emit (ToRoom roomId)
            (PlayerSync {| action := action; videoTime := videoTime;
                           serverTime := now;
                           initiator := socket_id socket |}) ]
    ∧ (∀ (members : string → gset string) (connection : string),
         connection ∈ members roomId →
         connection ∈ recipients members (socket_id socket) (ToRoom roomId))
    ∧ (∀ members : string → gset string,
         socket_id socket ∈ members roomId →
         socket_id socket ∈ recipients members (socket_id socket) (ToRoom roomId)).
Proof.
  intros now socket roomId action videoTime rooms room result after.
  subst after result. rewrite on_player_action_eq. fold room.
  cbn [fst snd]. rewrite room_of_insert.
  repeat split; try (intros ->; reflexivity); auto.
Qed.

Lemma player_action_updates_and_broadcasts_witness :
  playerState
    (room_of (on_player_action 9000%float s1_in_R "R" play 61.5%float
                {[ "R" := two_of_three_voted ]}).1.1 "R")
  = playing.
Proof.
  apply (player_action_updates_and_broadcasts 9000%float s1_in_R "R" play
           61.5%float {[ "R" := two_of_three_voted ]}).
  reflexivity.
Defined.

Example seek_keeps_player_state :
  let result :=
    on_player_action 9000%float s1_in_R "R" seek 61.5%float
      {[ "R" := two_of_three_voted ]} in
  playerState (room_of result.1.1 "R") = paused
  ∧ currentTime (room_of result.1.1 "R") = 61.5%float
  ∧ result.2
    = [ Emit (ToRoom "R") (PlayerSync (mkSync seek 61.5%float 9000%float "s1")) ].
Proof. repeat split; vm_compute; reflexivity. Qed.

(** ** Queue: explicit selection *)

(** C10 (change video).  Whatever integer is supplied (negative, or at or
    beyond the queue length, included), the handler stores it as the current
    video index, resets the current time to 0, leaves the rest of the room
    as it was, and emits one video-changed event that carries that integer
    to the room; the index is not compared with the queue. *)
Theorem change_video_sets_any_index :
  ∀ (socket : Connection) (roomId : string) (index : Z)
    (rooms : gmap string Room),
    let room := room_of rooms roomId in
    let result := on_queue_change_video socket roomId index rooms in
    let after := room_of result.1.1 roomId in
    currentVideoIndex after = index
    ∧ currentTime after = 0%float
    ∧ after = set_currentTime 0%float (set_currentVideoIndex index room)
    ∧ result.2 = [ Emit (ToRoom roomId) (QueueVideoChanged index) ].
Proof.
  intros socket roomId index rooms room result after.
  subst after result room. unfold on_queue_change_video, room_of.
  destruct (getRoom roomId rooms) as [room rooms1] eqn:Hget. cbn [fst snd].
  rewrite getRoom_fst, lookup_insert_eq. done.
Qed.

Example change_video_out_of_range :
  let rooms : gmap string Room := {[ "R" := two_of_three_voted ]} in
  currentVideoIndex
    (room_of (on_queue_change_video s1_in_R "R" (-3) rooms).1.1 "R") = -3
  ∧ currentVideoIndex
      (room_of (on_queue_change_video s1_in_R "R" 7 rooms).1.1 "R") = 7
  ∧ (on_queue_change_video s1_in_R "R" 7 rooms).2
    = [ Emit (ToRoom "R") (QueueVideoChanged 7) ].
Proof. repeat split; vm_compute; reflexivity. Qed.

(** Removing an id that no queued item has leaves the queue as it is and
    still broadcasts it. *)
Example remove_missing_item :
  let rooms : gmap string Room := {[ "R" := two_of_three_voted ]} in
  queue (room_of (on_queue_remove s1_in_R "R" "x" rooms).1.1 "R")
  = [video1; video2]
  ∧ (on_queue_remove s1_in_R "R" "x" rooms).2
    = [ Emit (ToRoom "R") (QueueUpdated [video1; video2]) ].
Proof. split; vm_compute; reflexivity. Qed.

(** ** Chat buffer *)

Section last_n.
Context {A : Type}.
Implicit Types (l k : list A).

Lemma length_last_n n l : length (last_n n l) = (length l `min` n)%nat.
Proof. unfold last_n. rewrite length_drop. lia. Qed.

Lemma last_n_short n l : (length l ≤ n)%nat → last_n n l = l.
Proof.
  intros Hle. unfold last_n.
  replace (length l - n)%nat with 0%nat by lia. apply drop_0.
Qed.

(** Trimming early does not change what is kept in the end. *)
Lemma last_n_app_last_n n l k : last_n n (last_n n l ++ k) = last_n n (l ++ k).
Proof.
  destruct (decide (length l ≤ n)%nat) as [Hle|Hgt].
  - by rewrite (last_n_short n l).
  - unfold last_n. rewrite !length_app, length_drop.
    rewrite <- (drop_app_le l k (length l - n)) by lia.
    rewrite drop_drop. f_equal. lia.
Qed.

Lemma last_n_suffix n l : last_n n l `suffix_of` l.
Proof. apply suffix_drop. Qed.

End last_n.

(** One send: append, then drop the oldest message if there are more than
    100. *)
Lemma on_chat_send_messages socket roomId message rooms :
  messages (room_of (on_chat_send socket roomId message rooms).1.1 roomId)
  = let l := messages (room_of rooms roomId) ++ [message] in
    if 100 <? len l then shift l else l.
Proof.
  unfold on_chat_send, room_of.
  destruct (getRoom roomId rooms) as [room rooms1]. cbn [fst snd].
  rewrite getRoom_fst, lookup_insert_eq. simpl.
  by destruct (100 <? _).
Qed.

Lemma on_chat_send_last_n socket roomId message rooms :
  (length (messages (room_of rooms roomId)) ≤ 100)%nat →
  messages (room_of (on_chat_send socket roomId message rooms).1.1 roomId)
  = last_n 100 (messages (room_of rooms roomId) ++ [message]).
Proof.
  intros Hbound. rewrite on_chat_send_messages. cbv zeta.
  set (l := messages (room_of rooms roomId)) in *.
  unfold len, last_n. rewrite length_app. simpl.
  destruct (Z.ltb_spec 100 (Z.of_nat (length l + 1))) as [Hover|Hfits].
  - replace (length l + 1 - 100)%nat with 1%nat by lia.
    unfold shift. by destruct (l ++ [message]).
  - replace (length l + 1 - 100)%nat with 0%nat by lia. by rewrite drop_0.
Qed.

Lemma chat_sends_last_n roomId inputs rooms :
  chat_sends_to roomId inputs →
  (length (messages (room_of rooms roomId)) ≤ 100)%nat →
  messages (room_of (steps inputs rooms) roomId)
  = last_n 100 (messages (room_of rooms roomId) ++ sent inputs).
Proof.
  unfold steps. revert rooms.
  induction inputs as [|[[now socket] ev] inputs IH]; intros rooms Hsends Hbound.
  - simpl. rewrite app_nil_r. by rewrite last_n_short.
  - apply Forall_cons in Hsends as [[message Hev] Hsends]. simpl in Hev.
    subst ev. simpl. unfold step at 2. simpl.
    rewrite IH; [|done|].
    + rewrite on_chat_send_last_n by done.
      rewrite last_n_app_last_n. by rewrite <- app_assoc.
    + rewrite on_chat_send_last_n by done. rewrite length_last_n. lia.
Qed.

(** What every handler keeps true of every room: the chat bound, and a
    vote list without repetitions (so that it stands for a set and its
    length is the set's size). *)
Lemma room_ok_newRoom : room_ok newRoom.
Proof. split; simpl; [lia|apply NoDup_nil_2]. Qed.

Lemma handle_room_ok now socket ev rooms :
  map_Forall (λ _, room_ok) rooms →
  map_Forall (λ _, room_ok) (handle now socket ev rooms).1.1.
Proof.
  intros Hall.
  assert (∀ roomId, room_ok (getRoom roomId rooms).1
                    ∧ map_Forall (λ _, room_ok) (getRoom roomId rooms).2)
    as Hget by (intros; apply getRoom_Forall; [apply room_ok_newRoom|done]).
  destruct ev; simpl;
    [ unfold on_room_join | unfold on_room_leave | unfold on_participant_update
    | unfold on_player_action | unfold on_queue_add | unfold on_queue_remove
    | unfold on_queue_change_video | unfold on_chat_send | unfold on_vote_next
    | unfold on_disconnect ];
    repeat match goal with
      | |- context [currentRoomId ?s] => destruct (currentRoomId s); [|done]
      | |- context [truthy ?s] => destruct (truthy s); simpl; [|try done]
      | |- context [getRoom ?r rooms] =>
          destruct (Hget r) as [[? ?] ?]; destruct (getRoom r rooms) as [? ?];
          cbn [fst snd] in *
      | |- context [if ?b then _ else _] => destruct b eqn:?
      end;
    cbn [fst snd]; try done;
    try (apply map_Forall_insert_2; [|done]);
    split; simpl; try done;
    try match goal with
      | |- context [match ?a with play => _ | pause => _ | seek => _ end] =>
          by destruct a
      end;
    try apply NoDup_nil_2; try by apply JSSet_add_NoDup.
  (* chat:send: one message too many, the oldest goes *)
  - unfold shift. rewrite length_tl, length_app. simpl. lia.
  (* chat:send: the message fits *)
  - match goal with H : (100 <? _) = false |- _ =>
      apply Z.ltb_ge in H; unfold len in H; simpl in H end. lia.
Qed.

Lemma reachable_room_ok rooms :
  reachable rooms → map_Forall (λ _, room_ok) rooms.
Proof.
  induction 1 as [|rooms now socket ev _ IH].
  - apply map_Forall_empty.
  - by apply handle_room_ok.
Qed.

Lemma reachable_room_of_ok rooms roomId :
  reachable rooms → room_ok (room_of rooms roomId).
Proof.
  intros Hreach%reachable_room_ok.
  by apply (getRoom_Forall room_ok rooms roomId); [apply room_ok_newRoom|].
Qed.

Lemma reachable_steps inputs rooms :
  reachable rooms → reachable (steps inputs rooms).
Proof.
  unfold steps. revert rooms.
  induction inputs as [|[[now socket] ev] inputs IH]; intros rooms Hreach;
    simpl; [done|].
  apply IH. by apply reachable_step.
Qed.

(** C6 (chat bound).  From any state the server can be in, after any
    sequence of chat messages sent to a room, the room holds at most 100
    messages, and they are the last 100 (all of them when there are fewer)
    of the earlier messages followed by the new ones, in order of arrival:
    the oldest are the ones dropped. *)
Theorem chat_keeps_the_last_100 :
  ∀ (rooms : gmap string Room) (roomId : string) (inputs : list Input),
    reachable rooms →
    chat_sends_to roomId inputs →
    let before := messages (room_of rooms roomId) in
    let after := messages (room_of (steps inputs rooms) roomId) in
    (length after ≤ 100)%nat
    ∧ after = last_n 100 (before ++ sent inputs)
    ∧ length after = ((length before + length (sent inputs)) `min` 100)%nat
    ∧ after `suffix_of` before ++ sent inputs.
Proof.
  intros rooms roomId inputs Hreach Hsends before after.
  assert (after = last_n 100 (before ++ sent inputs)) as Hafter.
  { apply chat_sends_last_n; [done|].
    by apply reachable_room_of_ok. }
  rewrite Hafter, length_last_n, length_app.
  split; [lia|]. split; [done|]. split; [done|]. apply last_n_suffix.
Qed.

Lemma chat_sends_to_chat_inputs from count :
  chat_sends_to "R" (chat_inputs from count).
Proof.
  unfold chat_sends_to, chat_inputs. apply Forall_fmap, Forall_forall.
  intros n _. by eexists.
Qed.

Lemma sent_chat_inputs from count :
  sent (chat_inputs from count) = msg <$> seq from count.
Proof.
  unfold sent, chat_inputs.
  induction (seq from count) as [|n l IH]; [done|].
  csimpl. by rewrite IH.
Qed.

Lemma chat_keeps_the_last_100_witness :
  messages (room_of (steps (chat_inputs 0 101) ∅) "R")
  = last_n 100 (messages (room_of ∅ "R") ++ sent (chat_inputs 0 101)).
Proof.
  apply (chat_keeps_the_last_100 ∅ "R" (chat_inputs 0 101)).
  - apply reachable_start.
  - apply chat_sends_to_chat_inputs.
Defined.

(** The 101st message pushes the first one out. *)
Example message_101_evicts_the_oldest :
  messages (room_of (steps (chat_inputs 0 101) ∅) "R") = msg <$> seq 1 100.
Proof.
  rewrite chat_sends_last_n.
  - rewrite sent_chat_inputs. vm_compute. reflexivity.
  - apply chat_sends_to_chat_inputs.
  - vm_compute. lia.
Qed.

(** ** Client reconciliation *)

Section client.
Import Client.

(** Without a player, or before it is ready, a sync event is dropped. *)
Lemma onPlayerSync_not_ready playerRef now data :
  onPlayerSync None true now data = []
  ∧ onPlayerSync playerRef false now data = [].
Proof. split; [done|]. by destruct playerRef. Qed.

Lemma onPlayerSync_ready player now data :
  let target := (videoTime data + (now - serverTime data) / 1000)%float in
  onPlayerSync (Some player) true now data =
  (if bool_decide (action data = seek)
      || (1 <? abs (getCurrentTime player - target))%float
   then [ seekTo target true ]
   else [])
  ++ match action data with
     | play => [ playVideo; SET_PLAYER_STATE playing ]
     | pause => [ pauseVideo; SET_PLAYER_STATE paused ]
     | seek => []
     end.
Proof. reflexivity. Qed.

End client.

(** C8 (latency formula).  For a ready player, with [delta] the time since
    the broadcast, in seconds (local clock minus [serverTime], both in
    milliseconds, over 1000), the target is [videoTime + delta]; the player
    is told to seek, and then to that target, exactly when the action is
    seek or its current time is more than one second away from the target;
    after that it is told to play exactly when the action is play and to
    pause exactly when the action is pause. *)
Theorem sync_reconciliation :
  ∀ (player : Client.YTPlayer) (now : float) (data : SyncEvent),
    let delta := ((now - serverTime data) / 1000)%float in
    let target := (videoTime data + delta)%float in
    let far :=
      (1 <? abs (Client.getCurrentTime player - target))%float in
    let effects := Client.onPlayerSync (Some player) true now data in
    (∀ t b, Client.seekTo t b ∈ effects ↔
            t = target ∧ b = true ∧ (action data = seek ∨ far = true))
    ∧ (Client.playVideo ∈ effects ↔ action data = play)
    ∧ (Client.pauseVideo ∈ effects ↔ action data = pause)
    ∧ ∃ seeks applied,
        effects = seeks ++ applied
        ∧ (seeks = [ Client.seekTo target true ] ∨ seeks = [])
        ∧ applied = match action data with
                    | play => [ Client.playVideo;
                                Client.SET_PLAYER_STATE playing ]
                    | pause => [ Client.pauseVideo;
                                 Client.SET_PLAYER_STATE paused ]
                    | seek => []
                    end.
Proof.
  intros player now data delta target far effects.
  subst effects. rewrite onPlayerSync_ready. cbv zeta. fold delta target far.
  destruct data as [a V T who]; simpl in *.
  split; [|split; [|split]].
  - intros t b. split.
    + intros H. destruct a, far; simpl in H; elem_of_cases H; auto.
    + intros (-> & -> & [Ha|Hfar]); simplify_eq; [|rewrite Hfar];
        [|destruct a]; by left.
  - split.
    + intros H. destruct a, far; simpl in H; elem_of_cases H; auto.
    + intros ->. destruct far; simpl; [right|]; by left.
  - split.
    + intros H. destruct a, far; simpl in H; elem_of_cases H; auto.
    + intros ->. destruct far; simpl; [right|]; by left.
  - eexists _, _. split; [reflexivity|]. split; [|done].
    destruct a, far; auto.
Qed.

(** A quarter of a second after the broadcast the target is 42.75 s; a
    player at 42.0 s is within a second of it and is only told to play. *)
Example play_within_a_second :
  (42.5 + (1700000000250 - 1700000000000) / 1000)%float = 42.75%float
  ∧ Client.onPlayerSync (Some (Client.mkPlayer 42%float)) true
      1700000000250%float play_at_42_5
    = [ Client.playVideo; Client.SET_PLAYER_STATE playing ].
Proof. split; vm_compute; reflexivity. Qed.

(** A player at 40.0 s is 2.75 s behind: it seeks to the target, then plays. *)
Example play_far_behind :
  Client.onPlayerSync (Some (Client.mkPlayer 40%float)) true
    1700000000250%float play_at_42_5
  = [ Client.seekTo 42.75%float true; Client.playVideo;
      Client.SET_PLAYER_STATE playing ].
Proof. vm_compute. reflexivity. Qed.

(** A seek always seeks, however close the player is, and neither plays nor
    pauses. *)
Example seek_always_seeks :
  Client.onPlayerSync (Some (Client.mkPlayer 42.75%float)) true
    1700000000250%float seek_to_42_5
  = [ Client.seekTo 42.75%float true ].
Proof. vm_compute. reflexivity. Qed.

Lemma sync_reconciliation_witness :
  Client.playVideo
  ∈ Client.onPlayerSync (Some (Client.mkPlayer 40%float)) true
      1700000000250%float play_at_42_5
  ↔ action play_at_42_5 = play.
Proof.
  apply (sync_reconciliation (Client.mkPlayer 40%float) 1700000000250%float
           play_at_42_5).
Defined.

(** * Further properties of the server *)

(** ** The registry under the handlers *)

Lemma getRoom_snd rooms roomId :
  (getRoom roomId rooms).2 = <[roomId := room_of rooms roomId]> rooms.
Proof.
  unfold room_of, getRoom. destruct (rooms !! roomId) as [r|] eqn:Hr; simpl.
  - by rewrite insert_id.
  - done.
Qed.

(** Every handler either leaves the map alone (a leave by a connection that
    is in no room) or writes one room, the one it is addressed to. *)
Lemma handle_rooms now socket ev rooms :
  let rooms' := (handle now socket ev rooms).1.1 in
  match addressed socket ev with
  | None => rooms' = rooms
  | Some roomId => rooms' = <[roomId := room_of rooms' roomId]> rooms
  end.
Proof.
  assert (∀ roomId (r : Room) (m : gmap string Room),
            m = <[roomId := r]> rooms →
            m = <[roomId := room_of m roomId]> rooms) as Hwrite.
  { intros roomId r m ->. by rewrite room_of_insert. }
  destruct ev; simpl;
    [ unfold on_room_join | unfold on_room_leave | unfold on_participant_update
    | unfold on_player_action | unfold on_queue_add | unfold on_queue_remove
    | unfold on_queue_change_video | unfold on_chat_send | unfold on_vote_next
    | unfold on_disconnect ];
    repeat match goal with
      | |- context [currentRoomId ?s] => destruct (currentRoomId s); [|done]
      | |- context [truthy ?s] => destruct (truthy s); simpl; [|try done]
      | |- context [getRoom ?r rooms] =>
          pose proof (getRoom_snd rooms r);
          destruct (getRoom r rooms) as [? ?]; cbn [fst snd] in *; subst
      | |- context [if ?b then _ else _] => destruct b
      end;
    cbn [fst snd]; eapply Hwrite; rewrite ?insert_insert_eq; reflexivity.
Qed.

(** X1 (room isolation).  A handler run changes no room but the one it is
    addressed to: every other room id looks up to what it did before, be it
    a room or nothing. *)
Theorem handler_touches_only_its_room :
  ∀ (now : float) (socket : Connection) (ev : ClientEvent)
    (rooms : gmap string Room) (other : string),
    addressed socket ev ≠ Some other →
    (handle now socket ev rooms).1.1 !! other = rooms !! other.
Proof.
  intros now socket ev rooms other Hother.
  pose proof (handle_rooms now socket ev rooms) as Hshape. cbv zeta in Hshape.
  destruct (addressed socket ev) as [roomId|].
  - rewrite Hshape. apply lookup_insert_ne. congruence.
  - by rewrite Hshape.
Qed.

Lemma handler_touches_only_its_room_witness :
  (handle 9000%float (connect "s3") (VoteNext "R" "c") two_rooms).1.1 !! "Q"
  = two_rooms !! "Q".
Proof.
  apply (handler_touches_only_its_room 9000%float (connect "s3")
           (VoteNext "R" "c") two_rooms "Q").
  simpl. discriminate.
Defined.

Lemma handle_dom now socket ev rooms :
  dom rooms ⊆ dom (handle now socket ev rooms).1.1.
Proof.
  pose proof (handle_rooms now socket ev rooms) as Hshape. cbv zeta in Hshape.
  destruct (addressed socket ev) as [roomId|]; rewrite Hshape; [|done].
  apply dom_insert_subseteq.
Qed.

(** X2 (no eviction, lazy creation).  No sequence of handler runs removes a
    room id from the registry, and after a handler run the room it was
    addressed to exists, whatever the handler did with the request (a vote
    without an id, a patch by a stranger and a removal of nothing create the
    room all the same). *)
Theorem rooms_are_created_and_never_removed :
  (∀ (inputs : list Input) (rooms : gmap string Room),
     dom rooms ⊆ dom (steps inputs rooms))
  ∧ (∀ (now : float) (socket : Connection) (ev : ClientEvent)
       (rooms : gmap string Room) (roomId : string),
       addressed socket ev = Some roomId →
       roomId ∈ dom (handle now socket ev rooms).1.1).
Proof.
  split.
  - intros inputs. unfold steps.
    induction inputs as [|[[now socket] ev] inputs IH]; intros rooms;
      simpl; [done|].
    etrans; [|apply IH]. unfold step. simpl. apply handle_dom.
  - intros now socket ev rooms roomId Haddr.
    pose proof (handle_rooms now socket ev rooms) as Hshape.
    cbv zeta in Hshape. rewrite Haddr in Hshape. rewrite Hshape.
    rewrite dom_insert. set_solver.
Qed.

Lemma rooms_are_created_and_never_removed_witness :
  "Z" ∈ dom (handle 9000%float (connect "s3") (VoteNext "Z" EmptyString)
               two_rooms).1.1.
Proof.
  apply (proj2 rooms_are_created_and_never_removed 9000%float (connect "s3")
           (VoteNext "Z" EmptyString) two_rooms "Z").
  reflexivity.
Defined.

(** ** Votes *)

(** X3 (the vote list is a set).  In every room of every state the server
    can reach, the vote list has no repetition, so its length, which the
    consensus check compares with the roster, is the number of distinct
    voters. *)
Theorem reachable_votes_are_distinct :
  ∀ (rooms : gmap string Room) (roomId : string),
    reachable rooms →
    NoDup (votes (room_of rooms roomId))
    ∧ JSSet.size (votes (room_of rooms roomId))
      = Z.of_nat (size (list_to_set (votes (room_of rooms roomId))
                          : gset string)).
Proof.
  intros rooms roomId Hreach.
  destruct (reachable_room_of_ok rooms roomId Hreach) as [_ Hnd].
  split; [done|]. unfold JSSet.size. by rewrite size_list_to_set.
Qed.

Lemma reachable_votes_are_distinct_witness :
  NoDup
    (votes
       (room_of
          (steps (three_joins_and_a_rejoin
                    ++ [ (5000%float, connect "s1", VoteNext "R" "a");
                         (6000%float, connect "s1", VoteNext "R" "a");
                         (7000%float, connect "s2", VoteNext "R" "b") ]) ∅)
          "R")).
Proof.
  apply reachable_votes_are_distinct.
  apply reachable_steps, reachable_start.
Defined.

Example repeated_votes_counted_once :
  votes
    (room_of
       (steps (three_joins_and_a_rejoin
                 ++ [ (5000%float, connect "s1", VoteNext "R" "a");
                      (6000%float, connect "s1", VoteNext "R" "a");
                      (7000%float, connect "s2", VoteNext "R" "b") ]) ∅)
       "R")
  = ["a"; "b"].
Proof. vm_compute. reflexivity. Qed.

Lemma getRoom_insert rooms roomId (r : Room) :
  getRoom roomId (<[roomId := r]> rooms) = (r, <[roomId := r]> rooms).
Proof. unfold getRoom. by rewrite lookup_insert_eq. Qed.

(** X4 (a repeated vote is idempotent).  When a vote has been recorded
    without reaching consensus, the same vote cast again, by any connection
    at any later time, leaves the registry exactly as it was and announces
    the same vote set once more. *)
Theorem repeated_vote_changes_nothing :
  ∀ (now now' : float) (socket socket' : Connection)
    (roomId participantId : string) (rooms : gmap string Room),
    participantId ≠ EmptyString →
    let first := on_vote_next now socket roomId participantId rooms in
    let second := on_vote_next now' socket' roomId participantId first.1.1 in
    ¬ consensus_fired roomId first.2 →
    second.1.1 = first.1.1
    ∧ second.2 = first.2
    ∧ ¬ consensus_fired roomId second.2.
Proof.
  intros now now' socket socket' roomId participantId rooms Hne first second
    Hnot.
  assert (second.1.1 = first.1.1 ∧ second.2 = first.2) as [Hrooms Heffs].
  { subst second. revert Hnot. subst first.
    rewrite consensus_fired_iff by done.
    rewrite (on_vote_next_truthy now) by done.
    set (room := room_of rooms roomId).
    set (voted := JSSet.add participantId (votes room)).
    destruct (Z.leb_spec (len (participants room)) (JSSet.size voted))
      as [Hle|Hlt]; [intros Hnot; by destruct Hnot|].
    intros _. cbn [fst snd].
    rewrite on_vote_next_truthy by done. rewrite room_of_insert. simpl.
    assert (JSSet.add participantId voted = voted) as ->
      by apply JSSet_add_idemp.
    rewrite (proj2 (Z.leb_gt _ _)) by done. cbn [fst snd].
    rewrite getRoom_insert. cbn [snd].
    by rewrite insert_insert_eq. }
  split; [done|]. split; [done|]. by rewrite Heffs.
Qed.

Lemma repeated_vote_changes_nothing_witness :
  (on_vote_next 9500%float (connect "s6") "R" "b"
     (on_vote_next 9000%float (connect "s2") "R" "b"
        {[ "R" := two_of_three_voted ]}).1.1).1.1
  = (on_vote_next 9000%float (connect "s2") "R" "b"
       {[ "R" := two_of_three_voted ]}).1.1.
Proof.
  apply (repeated_vote_changes_nothing 9000%float 9500%float (connect "s2")
           (connect "s6") "R" "b" {[ "R" := two_of_three_voted ]}).
  - discriminate.
  - rewrite consensus_fired_iff by discriminate. vm_compute.
    intros H. by apply H.
Defined.

(** The room a vote leaves behind, in all four outcomes. *)
Lemma on_vote_next_room now socket roomId participantId rooms :
  let room := room_of rooms roomId in
  let after := room_of (on_vote_next now socket roomId participantId rooms).1.1
                 roomId in
  after = room
  ∨ after = set_votes (JSSet.add participantId (votes room)) room
  ∨ after = set_votes [] room
  ∨ (currentVideoIndex room < len (queue room) - 1
     ∧ after = mkRoom (participants room) (queue room) (messages room) []
                 (increment (currentVideoIndex room)) playing 0%float).
Proof.
  intros room after. subst after.
  destruct (decide (participantId = EmptyString)) as [->|Hne].
  - left. rewrite on_vote_next_falsy. cbn [fst]. by rewrite room_of_getRoom.
  - right. rewrite on_vote_next_truthy by done. fold room.
    destruct (len (participants room) <=? _).
    + destruct (Z.ltb_spec (currentVideoIndex room) (len (queue room) - 1));
        cbn [fst]; rewrite room_of_insert; auto.
    + cbn [fst]. rewrite room_of_insert. auto.
Qed.

(** X5 (consensus never runs off the queue).  A vote leaves the queue as it
    is, and leaves the current index as it is or, below the last position,
    sets it to what [++] gives.  For an index within ±2^53, where the
    addition is exact, that is at most one step forward, and an index that
    points into the queue still points into it; an index at or past the last
    position is never moved. *)
Theorem vote_keeps_index_in_queue :
  ∀ (now : float) (socket : Connection) (roomId participantId : string)
    (rooms : gmap string Room),
    let room := room_of rooms roomId in
    let after := room_of (on_vote_next now socket roomId participantId rooms).1.1
                   roomId in
    queue after = queue room
    ∧ (currentVideoIndex after = currentVideoIndex room
       ∨ currentVideoIndex room < len (queue room) - 1
         ∧ currentVideoIndex after = increment (currentVideoIndex room))
    ∧ (-9007199254740992 ≤ currentVideoIndex room < 9007199254740992 →
       currentVideoIndex room ≤ currentVideoIndex after
         ≤ currentVideoIndex room + 1
       ∧ (currentVideoIndex room < len (queue room) →
          currentVideoIndex after < len (queue after))
       ∧ (0 ≤ currentVideoIndex room < len (queue room) →
          0 ≤ currentVideoIndex after < len (queue after)))
    ∧ (len (queue room) - 1 ≤ currentVideoIndex room →
       currentVideoIndex after = currentVideoIndex room).
Proof.
  intros now socket roomId participantId rooms room after.
  destruct (on_vote_next_room now socket roomId participantId rooms)
    as [H|[H|[H|[Hlt H]]]]; fold room after in H; try fold room in Hlt;
    rewrite H; simpl.
  1-3: split; [done|]; split; [by left|]; split; [lia|done].
  split; [done|]. split; [by right|]. split; [|lia].
  intros [Hlo Hhi]. rewrite increment_safe by done. lia.
Qed.

(** Outside that range the step need not be one: where the index has been
    set to -9007199254740994, the vote that advances moves it by two. *)
Example vote_moves_a_far_index_by_two :
  let rooms := steps index_far_below_the_queue ∅ in
  currentVideoIndex
    (room_of (on_vote_next 9000%float s1_in_R "R" "a" rooms).1.1 "R")
  = currentVideoIndex (room_of rooms "R") + 2.
Proof. vm_compute. reflexivity. Qed.

(** ** Participant roster: patch *)

Lemma on_participant_update_eq socket roomId updates rooms :
  let room := room_of rooms roomId in
  let i :=
    findIndex (λ p, bool_decide (Participant.id p = socket_id socket))
              (participants room) in
  on_participant_update socket roomId updates rooms =
  if 0 <=? i then
    (<[roomId := set_participants
                   (alter (λ p, Participant.assign p updates) (Z.to_nat i)
                          (participants room)) room]> (getRoom roomId rooms).2,
     socket,
     [ Emit (ToRoom roomId) (ParticipantUpdated (socket_id socket) updates) ])
  else ((getRoom roomId rooms).2, socket, []).
Proof.
  unfold on_participant_update, room_of.
  by destruct (getRoom roomId rooms) as [room rooms1].
Qed.

(** X6 (patch).  'participant:update' merges the update into the first
    participant whose id is the sender's socket id, at its position: fields
    the update carries take its values, the others keep theirs, every other
    roster entry and the rest of the room stay as they were, and the update
    is sent to the whole room under the sender's id.  When no participant
    has that id, the room is unchanged and nothing is emitted. *)
Theorem participant_update_patches_first_match :
  ∀ (socket : Connection) (roomId : string) (updates : Participant.partial)
    (rooms : gmap string Room),
    let room := room_of rooms roomId in
    let result := on_participant_update socket roomId updates rooms in
    let after := room_of result.1.1 roomId in
    ((∀ p, p ∈ participants room → Participant.id p ≠ socket_id socket) →
     after = room ∧ result.2 = [])
    ∧ (∀ i p,
         participants room !! i = Some p →
         Participant.id p = socket_id socket →
         (∀ j q, (j < i)%nat → participants room !! j = Some q →
                 Participant.id q ≠ socket_id socket) →
         let patched := Participant.assign p updates in
         after = set_participants (<[i := patched]> (participants room)) room
         ∧ Participant.name patched
           = default (Participant.name p) (Participant.u_name updates)
         ∧ Participant.isMuted patched
           = default (Participant.isMuted p) (Participant.u_isMuted updates)
         ∧ Participant.isCameraOff patched
           = default (Participant.isCameraOff p)
               (Participant.u_isCameraOff updates)
         ∧ Participant.isHost patched
           = default (Participant.isHost p) (Participant.u_isHost updates)
         ∧ Participant.id patched
           = default (Participant.id p) (Participant.u_id updates)
         ∧ result.2
           = [ Emit (ToRoom roomId)
                 (ParticipantUpdated (socket_id socket) updates) ]).
Proof.
  intros socket roomId updates rooms room result after.
  subst after result. rewrite on_participant_update_eq. fold room.
  set (mine := λ p, bool_decide (Participant.id p = socket_id socket)).
  split.
  - intros Habsent.
    assert (findIndex mine (participants room) < 0) as Hneg.
    { apply findIndex_none. intros p Hp. unfold mine.
      apply bool_decide_eq_false. by apply Habsent. }
    rewrite (proj2 (Z.leb_gt _ _)) by done. cbn [fst snd].
    by rewrite room_of_getRoom.
  - intros i p Hi Hp Hfirst patched.
    assert (0 ≤ findIndex mine (participants room)) as Hge.
    { destruct (Z.le_gt_cases 0 (findIndex mine (participants room)))
        as [|Hneg]; [done|].
      assert (mine p = false) as Hf.
      { apply (findIndex_none mine (participants room)); [lia|].
        by eapply list_elem_of_lookup_2. }
      unfold mine in Hf. by rewrite bool_decide_eq_false in Hf. }
    destruct (findIndex_found mine _ Hge) as (x & Hx & Hfx & Hmin).
    unfold mine in Hfx. rewrite bool_decide_eq_true in Hfx.
    assert (Z.to_nat (findIndex mine (participants room)) = i) as Hidx.
    { destruct (Nat.lt_trichotomy i
                  (Z.to_nat (findIndex mine (participants room))))
        as [Hlt|[Heq|Hgt]]; [|done|].
      - specialize (Hmin i p Hlt Hi). unfold mine in Hmin.
        by rewrite bool_decide_eq_false in Hmin.
      - by destruct (Hfirst _ x Hgt Hx). }
    rewrite (proj2 (Z.leb_le _ _)) by done. cbn [fst snd].
    rewrite room_of_insert, Hidx.
    split; [|done].
    f_equal. apply list_eq. intros j.
    destruct (decide (i = j)) as [<-|Hne].
    + rewrite list_lookup_alter_eq, Hi.
      by rewrite list_lookup_insert_eq by (by eapply lookup_lt_Some).
    + by rewrite list_lookup_alter_ne, list_lookup_insert_ne.
Qed.

Example sam_mutes_himself :
  let result :=
    on_participant_update s1_in_R "R" mute {[ "R" := room_with_sam ]} in
  Participant.isMuted <$> participants (room_of result.1.1 "R")
  = [false; true; false]
  ∧ result.2 = [ Emit (ToRoom "R") (ParticipantUpdated "s1" mute) ].
Proof. split; vm_compute; reflexivity. Qed.

Lemma participant_update_patches_first_match_witness :
  room_of (on_participant_update (connect "s9") "R" mute
             {[ "R" := room_with_sam ]}).1.1 "R"
  = room_of {[ "R" := room_with_sam ]} "R"
  ∧ (on_participant_update (connect "s9") "R" mute
       {[ "R" := room_with_sam ]}).2 = [].
Proof.
  apply (participant_update_patches_first_match (connect "s9") "R" mute
           {[ "R" := room_with_sam ]}).
  intros p Hp. vm_compute in Hp. elem_of_cases Hp; discriminate.
Defined.

(** ** The roster under all handlers *)

(** The roster of the addressed room after a handler run, by event. *)
Lemma handle_roster now socket ev rooms roomId :
  addressed socket ev = Some roomId →
  let l := participants (room_of rooms roomId) in
  participants (room_of (handle now socket ev rooms).1.1 roomId) =
  match ev with
  | RoomJoin _ participant => joined participant l
  | RoomLeave _ | Disconnect =>
      filter (λ p, Participant.id p ≠ socket_id socket) l
  | ParticipantUpdate _ updates =>
      let i :=
        findIndex (λ p, bool_decide (Participant.id p = socket_id socket)) l in
      if 0 <=? i
      then alter (λ p, Participant.assign p updates) (Z.to_nat i) l
      else l
  | _ => l
  end.
Proof.
  intros Haddr l. subst l. destruct ev; simpl in Haddr; simplify_eq; simpl.
  - apply on_room_join_participants.
  - destruct (currentRoomId socket) as [current|] eqn:Hcur; [|done].
    destruct (truthy current) eqn:Htruthy; simplify_eq.
    apply truthy_spec in Htruthy.
    rewrite (on_room_leave_joined _ _ roomId) by done.
    cbn [fst]. by rewrite room_of_insert.
  - rewrite on_participant_update_eq. cbv zeta.
    destruct (0 <=? _); cbn [fst].
    + by rewrite room_of_insert.
    + by rewrite room_of_getRoom.
  - rewrite on_player_action_eq. cbn [fst]. by rewrite room_of_insert.
  - unfold on_queue_add, room_of.
    destruct (getRoom roomId rooms) as [room rooms1]. cbn [fst snd].
    by rewrite getRoom_fst, lookup_insert_eq.
  - unfold on_queue_remove, room_of.
    destruct (getRoom roomId rooms) as [room rooms1]. cbn [fst snd].
    by rewrite getRoom_fst, lookup_insert_eq.
  - unfold on_queue_change_video, room_of.
    destruct (getRoom roomId rooms) as [room rooms1]. cbn [fst snd].
    by rewrite getRoom_fst, lookup_insert_eq.
  - unfold on_chat_send, room_of.
    destruct (getRoom roomId rooms) as [room rooms1]. cbn [fst snd].
    rewrite getRoom_fst, lookup_insert_eq. simpl. by destruct (100 <? _).
  - destruct (on_vote_next_room now socket roomId participantId rooms)
      as [H|[H|[H|[_ H]]]]; by rewrite H.
  - destruct (currentRoomId socket) as [current|] eqn:Hcur; [|done].
    destruct (truthy current) eqn:Htruthy; simplify_eq.
    apply truthy_spec in Htruthy.
    rewrite (on_disconnect_joined _ roomId) by done.
    cbn [fst]. by rewrite room_of_insert.
Qed.

Lemma ids_filter_NoDup (P : Participant.t → Prop) `{∀ p, Decision (P p)} l :
  NoDup (ids l) → NoDup (ids (filter P l)).
Proof.
  intros Hnd. eapply sublist_NoDup; [done|].
  unfold ids. apply fmap_sublist, sublist_filter.
Qed.

Lemma ids_alter_assign updates i l :
  Participant.u_id updates = None →
  ids (alter (λ p, Participant.assign p updates) i l) = ids l.
Proof.
  intros Hnone. unfold ids.
  rewrite (list_fmap_alter _ _ id).
  - by rewrite list_alter_id.
  - apply Forall_forall. intros p _. simpl. by rewrite Hnone.
Qed.

Lemma handle_ids_NoDup now socket ev rooms :
  keeps_ids ev →
  (∀ roomId, NoDup (ids (participants (room_of rooms roomId)))) →
  ∀ roomId,
    NoDup (ids (participants (room_of (handle now socket ev rooms).1.1 roomId))).
Proof.
  intros Hkeeps Hnd roomId.
  destruct (decide (addressed socket ev = Some roomId)) as [Haddr|Hother].
  - rewrite (handle_roster _ _ _ _ _ Haddr). cbv zeta.
    specialize (Hnd roomId).
    destruct ev; try done.
    + by apply joined_NoDup.
    + by apply ids_filter_NoDup.
    + simpl in Hkeeps. destruct (0 <=? _); [|done].
      by rewrite ids_alter_assign.
    + by apply ids_filter_NoDup.
  - unfold room_of. rewrite !getRoom_fst.
    pose proof (handle_rooms now socket ev rooms) as Hshape.
    cbv zeta in Hshape.
    destruct (addressed socket ev) as [r|].
    + rewrite Hshape, lookup_insert_ne by congruence.
      specialize (Hnd roomId). unfold room_of in Hnd.
      by rewrite getRoom_fst in Hnd.
    + rewrite Hshape. specialize (Hnd roomId). unfold room_of in Hnd.
      by rewrite getRoom_fst in Hnd.
Qed.

(** X7 (roster uniqueness under every handler).  Starting from the empty
    registry, or from any registry whose rosters have pairwise distinct ids,
    any sequence of events in which no patch carries an [id] field leaves
    every room with pairwise distinct participant ids. *)
Theorem roster_ids_stay_distinct :
  ∀ (inputs : list Input) (rooms : gmap string Room),
    Forall (λ i : Input, keeps_ids i.2) inputs →
    (∀ roomId, NoDup (ids (participants (room_of rooms roomId)))) →
    ∀ roomId,
      NoDup (ids (participants (room_of (steps inputs rooms) roomId))).
Proof.
  unfold steps. intros inputs.
  induction inputs as [|[[now socket] ev] inputs IH];
    intros rooms Hkeeps Hnd roomId; simpl; [done|].
  apply Forall_cons in Hkeeps as [Hev Hkeeps].
  apply IH; [done|]. intros r. unfold step. simpl.
  by apply handle_ids_NoDup.
Qed.

Lemma roster_ids_stay_distinct_witness :
  NoDup
    (ids (participants
            (room_of
               (steps (three_joins_and_a_rejoin
                         ++ [ (5000%float, connect "b", ParticipantUpdate "R" mute);
                              (6000%float, s1_in_R, Disconnect) ]) ∅)
               "R"))).
Proof.
  apply roster_ids_stay_distinct.
  - repeat (apply Forall_cons; split; [by simpl|]). apply Forall_nil_2.
  - intros roomId. unfold room_of. rewrite getRoom_fst, lookup_empty.
    simpl. apply NoDup_nil_2.
Defined.

(** The hypothesis on patches is needed: a patch may carry an [id], and the
    handler merges it like any other field. *)
Example patch_can_duplicate_an_id :
  ids (participants
         (room_of (on_participant_update s1_in_R "R" steal_alice_id
                     {[ "R" := room_with_sam ]}).1.1 "R"))
  = ["a"; "a"; "b"].
Proof. vm_compute. reflexivity. Qed.

(** ** Join and leave together *)

Lemma elem_of_joined participant l : participant ∈ joined participant l.
Proof.
  set (same := λ p, bool_decide (Participant.id p = Participant.id participant)).
  unfold joined. fold same.
  destruct (Z.leb_spec 0 (findIndex same l)) as [Hge|Hlt].
  - destruct (findIndex_found same l Hge) as (x & Hx & _).
    eapply list_elem_of_lookup_2. apply list_lookup_insert_eq.
    by eapply lookup_lt_Some.
  - apply elem_of_app. right. by left.
Qed.

Lemma on_room_join_socket socket roomId participant rooms :
  (on_room_join socket roomId participant rooms).1.2
  = {| socket_id := socket_id socket; currentRoomId := Some roomId |}.
Proof.
  unfold on_room_join. by destruct (getRoom roomId rooms) as [room rooms1].
Qed.

Lemma on_room_join_effects socket roomId participant rooms :
  (on_room_join socket roomId participant rooms).2
  = [ SocketJoin roomId;
      Emit ToSender
        (RoomJoined (snapshot (room_of (on_room_join socket roomId participant
                                          rooms).1.1 roomId)));
      Emit (ToOthers roomId) (ParticipantJoined participant) ].
Proof.
  rewrite on_room_join_rooms, room_of_insert.
  unfold on_room_join, room_of, joined.
  destruct (getRoom roomId rooms) as [room rooms1]. cbn [fst snd].
  by destruct (0 <=? _).
Qed.

(** X8 (join, then leave).  A connection that joins a room under its own
    socket id, the id being new to the roster, and then leaves (or closes)
    puts the room back exactly as it was; after the explicit leave the
    connection is in no room. *)
Theorem join_then_leave_restores_the_room :
  ∀ (now : float) (socket : Connection) (roomId payload : string)
    (participant : Participant.t) (rooms : gmap string Room),
    roomId ≠ EmptyString →
    Participant.id participant = socket_id socket →
    (∀ q, q ∈ participants (room_of rooms roomId) →
          Participant.id q ≠ Participant.id participant) →
    let joined := on_room_join socket roomId participant rooms in
    let left := on_room_leave joined.1.2 payload joined.1.1 in
    let closed := on_disconnect joined.1.2 joined.1.1 in
    room_of left.1.1 roomId = room_of rooms roomId
    ∧ room_of closed.1.1 roomId = room_of rooms roomId
    ∧ left.1.1 = closed.1.1
    ∧ currentRoomId left.1.2 = None.
Proof.
  intros now socket roomId payload participant rooms Hne Hid Hfresh
    joined left closed.
  assert (currentRoomId joined.1.2 = Some roomId) as Hcur
    by (subst joined; by rewrite on_room_join_socket).
  assert (socket_id joined.1.2 = socket_id socket) as Hsid
    by (subst joined; by rewrite on_room_join_socket).
  assert (remove_participant (socket_id socket) (room_of joined.1.1 roomId)
          = room_of rooms roomId) as Hroom.
  { subst joined. rewrite on_room_join_rooms, room_of_insert.
    rewrite joined_append by done.
    unfold remove_participant, set_participants. simpl.
    rewrite filter_app, filter_absent_id by (by rewrite <- Hid).
    rewrite filter_cons_False, filter_nil by (by intros Hp; apply Hp).
    rewrite app_nil_r. by destruct (room_of rooms roomId). }
  subst left closed.
  rewrite (on_room_leave_joined _ _ roomId) by done.
  rewrite (on_disconnect_joined _ roomId) by done.
  cbn [fst snd]. rewrite room_of_insert, Hsid, Hroom. done.
Qed.

Lemma join_then_leave_restores_the_room_witness :
  room_of
    (on_room_leave (on_room_join (connect "s1") "R" sam two_rooms).1.2 "R"
       (on_room_join (connect "s1") "R" sam two_rooms).1.1).1.1 "R"
  = room_of two_rooms "R".
Proof.
  apply (join_then_leave_restores_the_room 9000%float (connect "s1") "R" "R"
           sam two_rooms).
  - discriminate.
  - reflexivity.
  - intros q Hq. vm_compute in Hq. elem_of_cases Hq; discriminate.
Defined.

(** X9 (a second leave does nothing).  Whatever the first 'room:leave' did,
    a further 'room:leave' or the closing of the same connection changes no
    room and emits nothing. *)
Theorem leave_twice_is_leave_once :
  ∀ (socket : Connection) (payload payload' : string)
    (rooms : gmap string Room),
    let first := on_room_leave socket payload rooms in
    on_room_leave first.1.2 payload' first.1.1 = (first.1.1, first.1.2, [])
    ∧ on_disconnect first.1.2 first.1.1 = (first.1.1, first.1.2, []).
Proof.
  intros socket payload payload' rooms first.
  assert (match currentRoomId first.1.2 with
          | Some current => truthy current = false
          | None => True
          end) as Hout.
  { subst first. unfold on_room_leave.
    destruct (currentRoomId socket) as [current|] eqn:Hcur.
    - destruct (truthy current) eqn:Htruthy.
      + by destruct (getRoom current rooms).
      + cbn [fst snd]. by rewrite Hcur.
    - cbn [fst snd]. by rewrite Hcur. }
  unfold on_room_leave at 1, on_disconnect.
  destruct (currentRoomId first.1.2) as [current|]; [|done].
  by rewrite Hout.
Qed.

(** X10 (only the last room joined is left).  A connection that joins room
    A and then room B, without leaving A, is remembered as being in B only:
    its leave, or its closing, leaves room A as the first join made it, with
    the participant still in A's roster, and the transport is never told to
    take the socket out of A. *)
Theorem leave_forgets_the_first_room :
  ∀ (socket : Connection) (roomA roomB payload : string)
    (participant participant' : Participant.t) (rooms : gmap string Room),
    roomA ≠ roomB →
    let first := on_room_join socket roomA participant rooms in
    let second := on_room_join first.1.2 roomB participant' first.1.1 in
    let left := on_room_leave second.1.2 payload second.1.1 in
    let closed := on_disconnect second.1.2 second.1.1 in
    room_of left.1.1 roomA = room_of first.1.1 roomA
    ∧ room_of closed.1.1 roomA = room_of first.1.1 roomA
    ∧ participant ∈ participants (room_of left.1.1 roomA)
    ∧ participant ∈ participants (room_of closed.1.1 roomA)
    ∧ SocketLeave roomA ∉ second.2 ++ left.2 ++ closed.2.
Proof.
  intros socket roomA roomB payload participant participant' rooms Hne
    first second left closed.
  assert (room_of second.1.1 roomA = room_of first.1.1 roomA) as Hsecond.
  { subst second. rewrite on_room_join_rooms.
    rewrite room_of_insert_ne by done. apply room_of_getRoom. }
  assert (currentRoomId second.1.2 = Some roomB) as Hcur
    by (subst second; by rewrite on_room_join_socket).
  assert (participant ∈ participants (room_of first.1.1 roomA)) as Hin.
  { subst first. rewrite on_room_join_participants. apply elem_of_joined. }
  assert (room_of left.1.1 roomA = room_of first.1.1 roomA
          ∧ room_of closed.1.1 roomA = room_of first.1.1 roomA
          ∧ SocketLeave roomA ∉ left.2 ++ closed.2) as (Hleft & Hclosed & Heffs).
  { subst left closed. unfold on_room_leave, on_disconnect. rewrite Hcur.
    destruct (truthy roomB).
    - destruct (getRoom roomB second.1.1) as [room rooms1] eqn:Hget.
      cbn [fst snd].
      assert (rooms1 = (getRoom roomB second.1.1).2) as -> by by rewrite Hget.
      rewrite room_of_insert_ne, room_of_getRoom by done.
      split; [done|]. split; [done|].
      intros H. simpl in H. elem_of_cases H.
    - cbn [fst snd]. split; [done|]. split; [done|].
      intros H. simpl in H. elem_of_cases H. }
  rewrite Hleft, Hclosed. repeat split; try done.
  intros H. apply elem_of_app in H as [H|H]; [|done].
  subst second. rewrite on_room_join_effects in H. elem_of_cases H.
Qed.

Lemma leave_forgets_the_first_room_witness :
  sam ∈ participants
          (room_of
             (on_disconnect
                (on_room_join
                   (on_room_join (connect "s1") "A" sam ∅).1.2 "B" sam
                   (on_room_join (connect "s1") "A" sam ∅).1.1).1.2
                (on_room_join
                   (on_room_join (connect "s1") "A" sam ∅).1.2 "B" sam
                   (on_room_join (connect "s1") "A" sam ∅).1.1).1.1).1.1
             "A").
Proof.
  apply (leave_forgets_the_first_room (connect "s1") "A" "B" "B" sam sam ∅).
  discriminate.
Defined.

(** ** Queue: add and remove *)

Lemma on_queue_add_eq socket roomId item rooms :
  let room := room_of rooms roomId in
  on_queue_add socket roomId item rooms =
  (<[roomId := set_queue (queue room ++ [item]) room]> (getRoom roomId rooms).2,
   socket,
   [ Emit (ToRoom roomId) (QueueUpdated (queue room ++ [item])) ]).
Proof.
  unfold on_queue_add, room_of.
  by destruct (getRoom roomId rooms) as [room rooms1].
Qed.

Lemma on_queue_remove_eq socket roomId itemId rooms :
  let room := room_of rooms roomId in
  let kept := filter (λ item, QueueItem.id item ≠ itemId) (queue room) in
  on_queue_remove socket roomId itemId rooms =
  (<[roomId := set_queue kept room]> (getRoom roomId rooms).2,
   socket,
   [ Emit (ToRoom roomId) (QueueUpdated kept) ]).
Proof.
  unfold on_queue_remove, room_of.
  by destruct (getRoom roomId rooms) as [room rooms1].
Qed.

Lemma filter_absent_item (itemId : string) (q : list QueueItem.t) :
  (∀ item, item ∈ q → QueueItem.id item ≠ itemId) →
  filter (λ item, QueueItem.id item ≠ itemId) q = q.
Proof.
  intros Habsent. induction q as [|item q IH]; [done|].
  rewrite filter_cons_True by (apply Habsent; left).
  f_equal. apply IH. intros x Hx. apply Habsent. by right.
Qed.

(** X11 (queue removal).  'queue:remove' drops every queued item with the
    given id and keeps the others in their order; it changes nothing else in
    the room, the current index included, which is not adjusted to the
    shorter queue; it always broadcasts the resulting queue to the room, also
    when no item had the id and the queue is unchanged.  Removing an item
    right after adding it, its id being new to the queue, gives the queue
    back. *)
Theorem queue_remove_drops_by_id :
  ∀ (socket socket' : Connection) (roomId itemId : string)
    (item : QueueItem.t) (rooms : gmap string Room),
    let room := room_of rooms roomId in
    let result := on_queue_remove socket roomId itemId rooms in
    let after := room_of result.1.1 roomId in
    (∀ x, x ∈ queue after ↔ x ∈ queue room ∧ QueueItem.id x ≠ itemId)
    ∧ queue after `sublist_of` queue room
    ∧ after = set_queue (queue after) room
    ∧ currentVideoIndex after = currentVideoIndex room
    ∧ result.2 = [ Emit (ToRoom roomId) (QueueUpdated (queue after)) ]
    ∧ ((∀ x, x ∈ queue room → QueueItem.id x ≠ itemId) →
       queue after = queue room)
    ∧ ((∀ x, x ∈ queue room → QueueItem.id x ≠ QueueItem.id item) →
       let added := on_queue_add socket' roomId item rooms in
       let removed :=
         on_queue_remove socket roomId (QueueItem.id item) added.1.1 in
       room_of removed.1.1 roomId = room
       ∧ removed.2 = [ Emit (ToRoom roomId) (QueueUpdated (queue room)) ]).
Proof.
  intros socket socket' roomId itemId item rooms room result after.
  subst after result. rewrite on_queue_remove_eq. fold room.
  cbn [fst snd]. rewrite room_of_insert. simpl.
  split. { intros x. by rewrite list_elem_of_filter, (comm and). }
  split; [apply sublist_filter|].
  split; [done|]. split; [done|]. split; [done|].
  split; [apply filter_absent_item|].
  intros Hfresh.
  rewrite on_queue_add_eq. fold room. cbn [fst].
  rewrite on_queue_remove_eq. rewrite room_of_insert. simpl.
  rewrite filter_app, filter_absent_item by done.
  rewrite filter_cons_False, filter_nil by (by intros Hp; apply Hp).
  rewrite app_nil_r. cbn [fst snd]. rewrite room_of_insert.
  split; [|done]. by destruct room.
Qed.

Lemma queue_remove_drops_by_id_witness :
  queue
    (room_of (on_queue_remove s1_in_R "R" "nope"
                {[ "R" := two_of_three_voted ]}).1.1 "R")
  = queue (room_of {[ "R" := two_of_three_voted ]} "R").
Proof.
  apply (queue_remove_drops_by_id s1_in_R s1_in_R "R" "nope" video3
           {[ "R" := two_of_three_voted ]}).
  intros x Hx. vm_compute in Hx. elem_of_cases Hx; discriminate.
Defined.

(** The index is a position, not an item: removing the item before the
    current one makes another video current, and removing the last one can
    leave the index past the end. *)
Example removal_leaves_the_index_stale :
  let rooms : gmap string Room := {[ "R" := two_of_three_voted_last ]} in
  let after := room_of (on_queue_remove s1_in_R "R" "q2" rooms).1.1 "R" in
  currentVideoIndex after = 1 ∧ len (queue after) = 1.
Proof. split; vm_compute; reflexivity. Qed.

(** * The client *)

(** ** The reducer's roster *)

Lemma find_None {A} (f : A → bool) (l : list A) :
  List.find f l = None ↔ ∀ x, x ∈ l → f x = false.
Proof.
  induction l as [|x l IH]; simpl.
  - split; [|done]. intros _ y Hy. by apply not_elem_of_nil in Hy.
  - destruct (f x) eqn:Hx.
    + split; [done|]. intros H. specialize (H x (list_elem_of_here _ _)).
      congruence.
    + rewrite IH. split.
      * intros H y Hy. apply elem_of_cons in Hy as [->|Hy]; auto.
      * intros H y Hy. apply H. by right.
Qed.

Lemma find_Some_elem {A} (f : A → bool) (l : list A) x :
  List.find f l = Some x → x ∈ l ∧ f x = true.
Proof.
  induction l as [|y l IH]; simpl; [done|].
  destruct (f y) eqn:Hy.
  - intros [= ->]. split; [by left|done].
  - intros H. destruct (IH H). split; [by right|done].
Qed.

(** The roster after ADD_PARTICIPANT. *)
Lemma add_participant_roster state payload :
  RoomContext.participants
    (RoomContext.roomReducer state (RoomContext.ADD_PARTICIPANT payload))
  = if bool_decide (Participant.id payload ∈ ids (RoomContext.participants state))
    then RoomContext.participants state
    else RoomContext.participants state ++ [payload].
Proof.
  simpl.
  destruct (List.find _ (RoomContext.participants state)) as [q|] eqn:Hfind.
  - apply find_Some_elem in Hfind as [Hq Hid].
    rewrite bool_decide_eq_true in Hid.
    rewrite bool_decide_eq_true_2; [done|].
    rewrite <- Hid. by apply list_elem_of_fmap_2.
  - rewrite bool_decide_eq_false_2; [done|].
    intros (q & Hid & Hq)%list_elem_of_fmap.
    pose proof (proj1 (find_None _ _) Hfind q Hq) as Hf.
    rewrite bool_decide_eq_false in Hf. congruence.
Qed.

(** X12 (the client's roster actions).  ADD_PARTICIPANT never introduces a
    second entry with an id the roster has: it returns the state untouched,
    so that the first entry wins, and otherwise appends; with
    REMOVE_PARTICIPANT it keeps a roster of distinct ids distinct, and
    removing the id of a participant just added, the id being new, restores
    the state. *)
Theorem reducer_roster_actions :
  ∀ (state : RoomContext.RoomState) (p : Participant.t),
    let added := RoomContext.roomReducer state (RoomContext.ADD_PARTICIPANT p) in
    (Participant.id p ∈ ids (RoomContext.participants state) → added = state)
    ∧ (Participant.id p ∉ ids (RoomContext.participants state) →
       RoomContext.participants added = RoomContext.participants state ++ [p]
       ∧ RoomContext.roomReducer added
           (RoomContext.REMOVE_PARTICIPANT (Participant.id p)) = state)
    ∧ RoomContext.roomReducer added (RoomContext.ADD_PARTICIPANT p) = added
    ∧ (NoDup (ids (RoomContext.participants state)) →
       NoDup (ids (RoomContext.participants added))
       ∧ ∀ id, NoDup (ids (RoomContext.participants
                             (RoomContext.roomReducer state
                                (RoomContext.REMOVE_PARTICIPANT id))))).
Proof.
  intros state p added.
  set (same := λ q, bool_decide (Participant.id q = Participant.id p)).
  assert (Participant.id p ∈ ids (RoomContext.participants state) →
          added = state) as Hpresent.
  { intros (q & Hid & Hq)%list_elem_of_fmap. subst added. simpl. fold same.
    destruct (List.find same (RoomContext.participants state)) eqn:Hfind;
      [done|].
    pose proof (proj1 (find_None _ _) Hfind q Hq) as Hf. unfold same in Hf.
    rewrite bool_decide_eq_false in Hf. congruence. }
  assert (Participant.id p ∉ ids (RoomContext.participants state) →
          added = RoomContext.with_participants
                    (RoomContext.participants state ++ [p]) state) as Habsent.
  { intros Hnotin. subst added. simpl. fold same.
    destruct (List.find same (RoomContext.participants state)) as [q|]
      eqn:Hfind; [|done].
    apply find_Some_elem in Hfind as [Hq Hid]. unfold same in Hid.
    rewrite bool_decide_eq_true in Hid. destruct Hnotin.
    rewrite <- Hid. by apply list_elem_of_fmap_2. }
  split; [done|]. split; [|split].
  - intros Hnotin. rewrite (Habsent Hnotin). split; [done|]. simpl.
    rewrite filter_app, filter_absent_id.
    + rewrite filter_cons_False, filter_nil by (by intros Hp; apply Hp).
      rewrite app_nil_r. by destruct state.
    + intros q Hq Heq. apply Hnotin. rewrite <- Heq.
      by apply list_elem_of_fmap_2.
  - destruct (decide (Participant.id p ∈ ids (RoomContext.participants state)))
      as [Hin|Hnotin].
    + rewrite (Hpresent Hin). by apply Hpresent.
    + rewrite (Habsent Hnotin). simpl. fold same.
      destruct (List.find same (RoomContext.participants state ++ [p]))
        eqn:Hfind; [done|].
      assert (same p = false) as Hf.
      { apply (proj1 (find_None _ _) Hfind). apply elem_of_app. right. by left. }
      unfold same in Hf. by rewrite bool_decide_eq_false in Hf.
  - intros Hnd. split.
    + subst added. rewrite add_participant_roster.
      case_bool_decide as Hin; [done|].
      unfold ids. rewrite fmap_app. apply NoDup_app.
      split; [done|]. split; [|apply NoDup_singleton].
      intros x Hx ->%list_elem_of_singleton. done.
    + intros id. simpl. by apply ids_filter_NoDup.
Qed.

Lemma reducer_roster_actions_witness :
  RoomContext.roomReducer RoomContext.initialState
    (RoomContext.ADD_PARTICIPANT alice)
  = RoomContext.roomReducer
      (RoomContext.roomReducer RoomContext.initialState
         (RoomContext.ADD_PARTICIPANT alice))
      (RoomContext.ADD_PARTICIPANT alice').
Proof.
  symmetry.
  apply (proj1 (reducer_roster_actions
                  (RoomContext.roomReducer RoomContext.initialState
                     (RoomContext.ADD_PARTICIPANT alice)) alice')).
  vm_compute. by left.
Defined.

(** ** What an observing client hears of each handler *)

Lemma addressed_leave socket ev roomId :
  ev = Disconnect ∨ (∃ payload, ev = RoomLeave payload) →
  addressed socket ev = Some roomId →
  currentRoomId socket = Some roomId ∧ roomId ≠ EmptyString.
Proof.
  intros Hev Haddr.
  assert (match currentRoomId socket with
          | Some current => if truthy current then Some current else None
          | None => None
          end = Some roomId) as H
    by (destruct Hev as [->|[payload ->]]; exact Haddr).
  destruct (currentRoomId socket) as [current|]; [|done].
  destruct (truthy current) eqn:Htruthy; simplify_eq.
  split; [done|]. by apply truthy_spec.
Qed.

Lemma on_queue_change_video_eq socket roomId index rooms :
  let room := room_of rooms roomId in
  on_queue_change_video socket roomId index rooms =
  (<[roomId := set_currentTime 0%float (set_currentVideoIndex index room)]>
     (getRoom roomId rooms).2,
   socket,
   [ Emit (ToRoom roomId) (QueueVideoChanged index) ]).
Proof.
  unfold on_queue_change_video, room_of.
  by destruct (getRoom roomId rooms) as [room rooms1].
Qed.

Lemma on_chat_send_eq socket roomId message rooms :
  let room := room_of rooms roomId in
  let l := messages room ++ [message] in
  on_chat_send socket roomId message rooms =
  (<[roomId := set_messages (if 100 <? len l then shift l else l) room]>
     (getRoom roomId rooms).2,
   socket,
   [ Emit (ToRoom roomId) (ChatMsg message) ]).
Proof.
  unfold on_chat_send, room_of.
  destruct (getRoom roomId rooms) as [room rooms1]. simpl.
  by destruct (100 <? _).
Qed.

(** Every handler, seen from another connection of the addressed room: the
    messages that connection receives and the room the server holds
    afterwards. *)
Lemma handle_observed now socket ev rooms roomId :
  addressed socket ev = Some roomId →
  let room := room_of rooms roomId in
  let room' := room_of (handle now socket ev rooms).1.1 roomId in
  let heard := heard_by_others roomId (handle now socket ev rooms).2 in
  match ev with
  | RoomJoin _ participant =>
      heard = [ ParticipantJoined participant ]
      ∧ room' = set_participants (joined participant (participants room)) room
  | RoomLeave _ | Disconnect =>
      heard = [ ParticipantLeft (socket_id socket) ]
      ∧ room' = remove_participant (socket_id socket) room
  | ParticipantUpdate _ updates =>
      let i :=
        findIndex (λ p, bool_decide (Participant.id p = socket_id socket))
                  (participants room) in
      (0 ≤ i
       ∧ heard = [ ParticipantUpdated (socket_id socket) updates ]
       ∧ room' = set_participants
                   (alter (λ p, Participant.assign p updates) (Z.to_nat i)
                          (participants room)) room)
      ∨ (i < 0 ∧ heard = [] ∧ room' = room)
  | PlayerAction _ action videoTime =>
      heard = [ PlayerSync (mkSync action videoTime now (socket_id socket)) ]
      ∧ room' = set_currentTime videoTime (set_playerState (playerState room') room)
  | QueueAdd _ item =>
      heard = [ QueueUpdated (queue room ++ [item]) ]
      ∧ room' = set_queue (queue room ++ [item]) room
  | QueueRemove _ itemId =>
      let kept := filter (λ item, QueueItem.id item ≠ itemId) (queue room) in
      heard = [ QueueUpdated kept ] ∧ room' = set_queue kept room
  | QueueChangeVideo _ index =>
      heard = [ QueueVideoChanged index ]
      ∧ room' = set_currentTime 0%float (set_currentVideoIndex index room)
  | ChatSend _ message =>
      let l := messages room ++ [message] in
      heard = [ ChatMsg message ]
      ∧ room' = set_messages (if 100 <? len l then shift l else l) room
  | VoteNext _ participantId =>
      let voted := JSSet.add participantId (votes room) in
      (heard = [] ∧ room' = room)
      ∨ (heard = [ VotesUpdated voted ] ∧ room' = set_votes voted room)
      ∨ (heard = [ VotesUpdated voted; VotesUpdated [] ]
         ∧ room' = set_votes [] room)
      ∨ (heard = [ VotesUpdated voted;
                   QueueVideoChanged (increment (currentVideoIndex room));
                   VotesUpdated [];
                   PlayerSync (system_play now) ]
         ∧ room' = mkRoom (participants room) (queue room) (messages room) []
                     (increment (currentVideoIndex room)) playing 0%float)
  end.
Proof.
  intros Haddr room room' heard. subst room' heard.
  assert (∀ m : ServerMsg,
            (if bool_decide (roomId = roomId) then Some m else None) = Some m)
    as Hhere by (intros; by rewrite bool_decide_eq_true_2).
  destruct ev; simpl in Haddr |- *; simplify_eq.
  - rewrite on_room_join_effects, on_room_join_rooms, room_of_insert.
    split; [|done]. simpl. by rewrite Hhere.
  - destruct (addressed_leave socket (RoomLeave roomId0) roomId) as [Hcur Hne];
      [by eauto|done|].
    rewrite (on_room_leave_joined _ _ roomId) by done.
    cbn [fst snd]. rewrite room_of_insert. split; [|done].
    simpl. by rewrite Hhere.
  - rewrite on_participant_update_eq. fold room. cbv zeta.
    destruct (Z.leb_spec 0 (findIndex
                (λ p, bool_decide (Participant.id p = socket_id socket))
                (participants room))) as [Hge|Hlt]; cbn [fst snd].
    + left. rewrite room_of_insert. split; [done|]. split; [|done].
      simpl. by rewrite Hhere.
    + right. by rewrite room_of_getRoom.
  - rewrite on_player_action_eq. fold room. cbn [fst snd].
    rewrite room_of_insert. split; [|done]. simpl. by rewrite Hhere.
  - rewrite on_queue_add_eq. fold room. cbn [fst snd].
    rewrite room_of_insert. split; [|done]. simpl. by rewrite Hhere.
  - rewrite on_queue_remove_eq. fold room. cbn [fst snd].
    rewrite room_of_insert. split; [|done]. simpl. by rewrite Hhere.
  - rewrite on_queue_change_video_eq. fold room. cbn [fst snd].
    rewrite room_of_insert. split; [|done]. simpl. by rewrite Hhere.
  - rewrite on_chat_send_eq. fold room. cbn [fst snd].
    rewrite room_of_insert. split; [|done]. simpl. by rewrite Hhere.
  - destruct (decide (participantId = EmptyString)) as [->|Hne].
    + left. rewrite on_vote_next_falsy. cbn [fst snd].
      by rewrite room_of_getRoom.
    + right. rewrite on_vote_next_truthy by done. fold room.
      destruct (len (participants room) <=? _);
        [destruct (currentVideoIndex room <? _)|];
        cbn [fst snd]; rewrite room_of_insert; simpl; rewrite !Hhere; auto.
  - destruct (addressed_leave socket Disconnect roomId) as [Hcur Hne];
      [by eauto|done|].
    rewrite (on_disconnect_joined _ roomId) by done.
    cbn [fst snd]. rewrite room_of_insert. split; [|done].
    simpl. by rewrite Hhere.
Qed.

(** ** A client in step with the server *)

(** With distinct ids, patching the first entry that has the id (the
    server) and patching every entry that has it (the reducer) agree. *)
Lemma patch_first_is_patch_all (f : Participant.t → Participant.t)
    (id : string) (l : list Participant.t) :
  NoDup (ids l) →
  let i := findIndex (λ p, bool_decide (Participant.id p = id)) l in
  0 ≤ i →
  alter f (Z.to_nat i) l
  = (λ p, if bool_decide (Participant.id p = id) then f p else p) <$> l.
Proof.
  intros Hnd i Hge.
  destruct (findIndex_found _ l Hge) as (x & Hx & Hfx & _). fold i in Hx.
  rewrite bool_decide_eq_true in Hfx.
  apply list_eq. intros j. rewrite list_lookup_fmap.
  destruct (decide (Z.to_nat i = j)) as [<-|Hne].
  - rewrite list_lookup_alter_eq, Hx. simpl.
    by rewrite bool_decide_eq_true_2.
  - rewrite list_lookup_alter_ne by done.
    destruct (l !! j) as [y|] eqn:Hy; [|done]. simpl.
    rewrite bool_decide_eq_false_2; [done|].
    intros Hid. apply Hne.
    apply (NoDup_lookup (ids l) _ _ id Hnd); unfold ids;
      rewrite list_lookup_fmap.
    + by rewrite Hx, <- Hfx.
    + by rewrite Hy, <- Hid.
Qed.

(** X13 (an observer's roster follows the server's).  Let a client in a
    room list the same participants as the server.  After any handler run
    addressed to that room by another connection, and the delivery of what
    the handler sent to the others, the client's roster is again the
    server's, provided that a join brings an id new to the roster and that
    a patch finds a roster with distinct ids. *)
Theorem observer_roster_follows_server :
  ∀ (now : float) (socket : Connection) (ev : ClientEvent)
    (rooms : gmap string Room) (roomId : string)
    (state : RoomContext.RoomState),
    addressed socket ev = Some roomId →
    RoomContext.participants state = participants (room_of rooms roomId) →
    roster_observable ev (participants (room_of rooms roomId)) →
    let result := handle now socket ev rooms in
    RoomContext.participants
      (useSocket.receive_all (heard_by_others roomId result.2) state)
    = participants (room_of result.1.1 roomId).
Proof.
  intros now socket ev rooms roomId state Haddr Hsync Hobs result.
  pose proof (handle_observed now socket ev rooms roomId Haddr) as Hseen.
  cbv zeta in Hseen. subst result.
  destruct ev; simpl in Hobs.
  - destruct Hseen as [-> ->]. simpl.
    unfold useSocket.receive_all, useSocket.receive. cbn [foldl useSocket.on_server_event].
    rewrite add_participant_roster, Hsync, joined_append by done.
    rewrite bool_decide_eq_false_2; [done|].
    intros (q & Hid & Hq)%list_elem_of_fmap. by apply (Hobs q).
  - destruct Hseen as [-> ->]. simpl. by rewrite Hsync.
  - destruct Hseen as [(Hge & -> & ->)|(Hlt & -> & ->)]; simpl; [|done].
    rewrite Hsync. symmetry. by apply patch_first_is_patch_all.
  - destruct Hseen as [-> ->]. done.
  - destruct Hseen as [-> ->]. done.
  - destruct Hseen as [-> ->]. done.
  - destruct Hseen as [-> ->]. done.
  - destruct Hseen as [-> ->]. done.
  - destruct Hseen as [[-> ->]|[[-> ->]|[[-> ->]|[-> ->]]]]; done.
  - destruct Hseen as [-> ->]. simpl. by rewrite Hsync.
Qed.

Lemma observer_roster_follows_server_witness :
  RoomContext.participants
    (useSocket.receive_all
       (heard_by_others "R"
          (handle 9000%float (connect "b") (ParticipantUpdate "R" mute)
             {[ "R" := two_of_three_voted ]}).2) client_of_R)
  = participants
      (room_of (handle 9000%float (connect "b") (ParticipantUpdate "R" mute)
                  {[ "R" := two_of_three_voted ]}).1.1 "R").
Proof.
  apply (observer_roster_follows_server 9000%float (connect "b")
           (ParticipantUpdate "R" mute) {[ "R" := two_of_three_voted ]} "R"
           client_of_R).
  - reflexivity.
  - reflexivity.
  - vm_compute. repeat constructor; intros H; elem_of_cases H.
Defined.

(** The two conditions are needed.  A participant who joins again under
    their id is overwritten on the server and ignored by the clients that
    already list them. *)
Example rejoin_is_not_seen_by_observers :
  let rooms : gmap string Room := {[ "R" := two_of_three_voted ]} in
  let result := handle 9000%float (connect "s4") (RoomJoin "R" alice') rooms in
  participants (room_of result.1.1 "R") = [alice'; bob; carol]
  ∧ RoomContext.participants
      (useSocket.receive_all (heard_by_others "R" result.2) client_of_R)
    = [alice; bob; carol].
Proof. split; vm_compute; reflexivity. Qed.

(** One handler run, seen by a client that holds the queue and the index. *)
Lemma observed_queue_and_index :
  ∀ (now : float) (socket : Connection) (ev : ClientEvent)
    (rooms : gmap string Room) (roomId : string)
    (state : RoomContext.RoomState),
    addressed socket ev = Some roomId →
    RoomContext.queue state = queue (room_of rooms roomId) →
    RoomContext.currentVideoIndex state
    = currentVideoIndex (room_of rooms roomId) →
    let result := handle now socket ev rooms in
    let state' :=
      useSocket.receive_all (heard_by_others roomId result.2) state in
    RoomContext.queue state' = queue (room_of result.1.1 roomId)
    ∧ RoomContext.currentVideoIndex state'
      = currentVideoIndex (room_of result.1.1 roomId).
Proof.
  intros now socket ev rooms roomId state Haddr Hqueue Hindex result state'.
  pose proof (handle_observed now socket ev rooms roomId Haddr) as Hseen.
  cbv zeta in Hseen. subst state' result.
  destruct ev.
  - destruct Hseen as [-> ->].
    unfold useSocket.receive_all, useSocket.receive. simpl.
    by match goal with
       | |- context [List.find ?f ?l] => destruct (List.find f l)
       end.
  - by destruct Hseen as [-> ->].
  - by destruct Hseen as [(Hge & -> & ->)|(Hlt & -> & ->)].
  - destruct Hseen as [-> Hroom]. rewrite Hroom. done.
  - by destruct Hseen as [-> ->].
  - by destruct Hseen as [-> ->].
  - by destruct Hseen as [-> ->].
  - by destruct Hseen as [-> ->].
  - by destruct Hseen as [[-> ->]|[[-> ->]|[[-> ->]|[-> ->]]]].
  - by destruct Hseen as [-> ->].
Qed.


(** X14 (an observer's queue and index follow the server's).  Let a client
    in a room hold the server's queue and current index.  After any handler
    run addressed to that room by another connection, and the delivery of
    what the handler sent to the others, it holds the server's queue and
    index again: additions, removals, explicit selections and the advance by
    consensus all reach it. *)
Theorem observer_queue_follows_server :
  ∀ (now : float) (socket : Connection) (ev : ClientEvent)
    (rooms : gmap string Room) (roomId : string)
    (state : RoomContext.RoomState),
    addressed socket ev = Some roomId →
    RoomContext.queue state = queue (room_of rooms roomId) →
    RoomContext.currentVideoIndex state
    = currentVideoIndex (room_of rooms roomId) →
    let result := handle now socket ev rooms in
    let state' :=
      useSocket.receive_all (heard_by_others roomId result.2) state in
    RoomContext.queue state' = queue (room_of result.1.1 roomId)
    ∧ RoomContext.currentVideoIndex state'
      = currentVideoIndex (room_of result.1.1 roomId).
Proof. exact observed_queue_and_index. Qed.

Lemma observer_queue_follows_server_witness :
  RoomContext.currentVideoIndex
    (useSocket.receive_all
       (heard_by_others "R"
          (handle 9000%float (connect "s3") (VoteNext "R" "c")
             {[ "R" := two_of_three_voted ]}).2) client_of_R)
  = currentVideoIndex
      (room_of (handle 9000%float (connect "s3") (VoteNext "R" "c")
                  {[ "R" := two_of_three_voted ]}).1.1 "R").
Proof.
  apply (observer_queue_follows_server 9000%float (connect "s3")
           (VoteNext "R" "c") {[ "R" := two_of_three_voted ]} "R"
           client_of_R); reflexivity.
Defined.

Example observer_sees_the_advance :
  RoomContext.currentVideoIndex
    (useSocket.receive_all
       (heard_by_others "R"
          (handle 9000%float (connect "s3") (VoteNext "R" "c")
             {[ "R" := two_of_three_voted ]}).2) client_of_R)
  = 1.
Proof. vm_compute. reflexivity. Qed.

(** X15 (the client's chat log is not bounded).  The reducer appends every
    chat message it hears and never drops one, while the server keeps 100:
    if the server's buffer is the last 100 messages of a client's log, it
    still is after any handler run addressed to the room and the delivery
    of its messages, and a chat message makes the client's log one longer,
    whatever its length. *)
Theorem server_chat_is_tail_of_client_log :
  ∀ (now : float) (socket : Connection) (ev : ClientEvent)
    (rooms : gmap string Room) (roomId : string)
    (state : RoomContext.RoomState),
    addressed socket ev = Some roomId →
    messages (room_of rooms roomId) = last_n 100 (RoomContext.messages state) →
    let result := handle now socket ev rooms in
    let state' :=
      useSocket.receive_all (heard_by_others roomId result.2) state in
    messages (room_of result.1.1 roomId)
    = last_n 100 (RoomContext.messages state')
    ∧ (∀ message, ev = ChatSend roomId message →
         RoomContext.messages state' = RoomContext.messages state ++ [message]).
Proof.
  intros now socket ev rooms roomId state Haddr Htail result state'.
  pose proof (handle_observed now socket ev rooms roomId Haddr) as Hseen.
  cbv zeta in Hseen. subst state' result.
  destruct ev.
  - destruct Hseen as [-> ->].
    unfold useSocket.receive_all, useSocket.receive. simpl.
    by match goal with
       | |- context [List.find ?f ?l] => destruct (List.find f l)
       end.
  - by destruct Hseen as [-> ->].
  - by destruct Hseen as [(Hge & -> & ->)|(Hlt & -> & ->)].
  - destruct Hseen as [-> Hroom]. rewrite Hroom. done.
  - by destruct Hseen as [-> ->].
  - by destruct Hseen as [-> ->].
  - by destruct Hseen as [-> ->].
  - destruct Hseen as [-> ->]. simpl. split; [|by intros ? [= _ ->]].
    pose proof (on_chat_send_last_n socket roomId0 message rooms) as Hkeep.
    simpl in Haddr. simplify_eq.
    rewrite on_chat_send_messages in Hkeep. cbv zeta in Hkeep.
    rewrite Hkeep by (rewrite Htail, length_last_n; lia).
    by rewrite Htail, last_n_app_last_n.
  - by destruct Hseen as [[-> ->]|[[-> ->]|[[-> ->]|[-> ->]]]].
  - by destruct Hseen as [-> ->].
Qed.

Lemma server_chat_is_tail_of_client_log_witness :
  messages
    (room_of (handle 9000%float (connect "s3") (ChatSend "R" (msg 7))
                {[ "R" := two_of_three_voted ]}).1.1 "R")
  = last_n 100
      (RoomContext.messages
         (useSocket.receive_all
            (heard_by_others "R"
               (handle 9000%float (connect "s3") (ChatSend "R" (msg 7))
                  {[ "R" := two_of_three_voted ]}).2) client_of_R)).
Proof.
  apply (server_chat_is_tail_of_client_log 9000%float (connect "s3")
           (ChatSend "R" (msg 7)) {[ "R" := two_of_three_voted ]} "R"
           client_of_R); reflexivity.
Defined.

(** X16 (what a joiner learns).  The connection that joins is sent the room
    as it stands after its own entry into the roster, and the hook stores
    the roster (with the joiner in it), the queue, the chat buffer, the
    current index and the current time, whatever the client held before;
    it stores neither the votes nor the player state, which the client keeps
    from before the join. *)
Theorem joiner_takes_over_the_room :
  ∀ (socket : Connection) (roomId : string) (participant : Participant.t)
    (rooms : gmap string Room) (state : RoomContext.RoomState),
    let result := on_room_join socket roomId participant rooms in
    let room' := room_of result.1.1 roomId in
    let state' :=
      useSocket.receive_all (heard_by_sender roomId result.2) state in
    RoomContext.participants state' = participants room'
    ∧ participant ∈ RoomContext.participants state'
    ∧ RoomContext.queue state' = queue room'
    ∧ RoomContext.messages state' = messages room'
    ∧ RoomContext.currentVideoIndex state' = currentVideoIndex room'
    ∧ RoomContext.currentTime state' = currentTime room'
    ∧ RoomContext.votes state' = RoomContext.votes state
    ∧ RoomContext.playerState state' = RoomContext.playerState state.
Proof.
  intros socket roomId participant rooms state result room' state'.
  subst state' room' result. rewrite on_room_join_effects.
  simpl. repeat split.
  rewrite on_room_join_participants. apply elem_of_joined.
Qed.

(** A client that joins a room where a video plays and votes are in still
    shows the player as unstarted and no votes. *)
Example joiner_misses_votes_and_player_state :
  let rooms : gmap string Room := {[ "Q" := sam_has_not_voted ]} in
  let result := on_room_join (connect "s5") "Q" carol rooms in
  let state' :=
    useSocket.receive_all (heard_by_sender "Q" result.2) fresh_client in
  votes (room_of result.1.1 "Q") = ["a"; "b"]
  ∧ playerState (room_of result.1.1 "Q") = playing
  ∧ RoomContext.votes state' = []
  ∧ RoomContext.playerState state' = unstarted
  ∧ RoomContext.participants state' = [alice; sam; bob; carol].
Proof. repeat split; vm_compute; reflexivity. Qed.

(** ** The client's own queue position *)

Lemma currentVideo_Some state :
  is_Some (RoomContext.currentVideo state)
  ↔ 0 ≤ RoomContext.currentVideoIndex state
        < len (RoomContext.queue state).
Proof.
  unfold RoomContext.currentVideo, len.
  destruct (Z.leb_spec 0 (RoomContext.currentVideoIndex state)) as [Hge|Hlt].
  - rewrite lookup_lt_is_Some. lia.
  - split; [by intros [? ?]|lia].
Qed.

(** [nextVideo] below the last position, [previousVideo] above the first:
    the dispatch happens, and within ±2^53 the new index is exact. *)
Lemma nextVideo_moves state :
  -9007199254740992 ≤ RoomContext.currentVideoIndex state →
  RoomContext.currentVideoIndex state < 9007199254740992 →
  RoomContext.currentVideoIndex state < len (RoomContext.queue state) - 1 →
  RoomContext.nextVideo state
  = RoomContext.with_currentVideoIndex
      (RoomContext.currentVideoIndex state + 1) state.
Proof.
  intros Hlo Hhi Hlt. unfold RoomContext.nextVideo.
  rewrite (proj2 (Z.ltb_lt _ _)) by done. simpl.
  by rewrite increment_safe.
Qed.

Lemma previousVideo_moves state :
  0 < RoomContext.currentVideoIndex state →
  RoomContext.currentVideoIndex state ≤ 9007199254740992 →
  RoomContext.previousVideo state
  = RoomContext.with_currentVideoIndex
      (RoomContext.currentVideoIndex state - 1) state.
Proof.
  intros Hlo Hhi. unfold RoomContext.previousVideo.
  rewrite (proj2 (Z.ltb_lt _ _)) by done. simpl.
  by rewrite decrement_safe by lia.
Qed.

(** X17 (next and previous video on the client).  For a queue that is a
    JavaScript array (at most 2^32 - 1 items): [nextVideo] sets the index to
    the next position when the index is below the last one, [previousVideo]
    sets it to the previous position when the index is above the first one,
    both leaving the rest of the state alone, and they do nothing at the
    ends; so they never leave a client that has a current video without
    one, and going forward then back returns to the same state. *)
Theorem next_and_previous_stay_in_queue :
  ∀ state : RoomContext.RoomState,
    len (RoomContext.queue state) ≤ 4294967295 →
    (0 ≤ RoomContext.currentVideoIndex state
       < len (RoomContext.queue state) - 1 →
     RoomContext.nextVideo state
     = RoomContext.with_currentVideoIndex
         (RoomContext.currentVideoIndex state + 1) state)
    ∧ (0 < RoomContext.currentVideoIndex state
         < len (RoomContext.queue state) →
       RoomContext.previousVideo state
       = RoomContext.with_currentVideoIndex
           (RoomContext.currentVideoIndex state - 1) state)
    ∧ (is_Some (RoomContext.currentVideo state) →
       is_Some (RoomContext.currentVideo (RoomContext.nextVideo state))
       ∧ is_Some (RoomContext.currentVideo (RoomContext.previousVideo state)))
    ∧ (len (RoomContext.queue state) - 1
       ≤ RoomContext.currentVideoIndex state →
       RoomContext.nextVideo state = state)
    ∧ (RoomContext.currentVideoIndex state ≤ 0 →
       RoomContext.previousVideo state = state)
    ∧ (0 ≤ RoomContext.currentVideoIndex state
         < len (RoomContext.queue state) - 1 →
       RoomContext.previousVideo (RoomContext.nextVideo state) = state).
Proof.
  intros state Harray.
  assert (len (RoomContext.queue state) - 1
          ≤ RoomContext.currentVideoIndex state →
          RoomContext.nextVideo state = state) as Hlast.
  { intros Hlast. unfold RoomContext.nextVideo.
    by rewrite (proj2 (Z.ltb_ge _ _)). }
  assert (RoomContext.currentVideoIndex state ≤ 0 →
          RoomContext.previousVideo state = state) as Hfirst.
  { intros Hfirst. unfold RoomContext.previousVideo.
    by rewrite (proj2 (Z.ltb_ge _ _)). }
  split; [intros [Hge Hlt]; apply nextVideo_moves; lia|].
  split; [intros [Hgt Hlt]; apply previousVideo_moves; lia|].
  split; [|split; [done|split; [done|]]].
  - rewrite !currentVideo_Some. intros [Hge Hlt]. split.
    + destruct (Z.lt_ge_cases (RoomContext.currentVideoIndex state)
                  (len (RoomContext.queue state) - 1)) as [Hin|Hend].
      * rewrite nextVideo_moves by lia. simpl. lia.
      * rewrite Hlast by done. lia.
    + destruct (Z.lt_ge_cases 0 (RoomContext.currentVideoIndex state))
        as [Hin|Hend].
      * rewrite previousVideo_moves by lia. simpl. lia.
      * rewrite Hfirst by done. lia.
  - intros [Hge Hlt]. rewrite nextVideo_moves by lia.
    rewrite previousVideo_moves by (simpl; lia).
    unfold RoomContext.with_currentVideoIndex. simpl.
    replace (RoomContext.currentVideoIndex state + 1 - 1)
      with (RoomContext.currentVideoIndex state) by lia.
    by destruct state.
Qed.

Lemma next_and_previous_stay_in_queue_witness :
  RoomContext.currentVideoIndex (RoomContext.nextVideo client_of_R) = 1
  ∧ RoomContext.queue (RoomContext.nextVideo client_of_R) = [video1; video2]
  ∧ RoomContext.previousVideo (RoomContext.nextVideo client_of_R)
    = client_of_R.
Proof.
  pose proof (next_and_previous_stay_in_queue client_of_R) as H.
  destruct H as (Hnext & _ & _ & _ & _ & Hback).
  - vm_compute. discriminate.
  - rewrite Hnext by (vm_compute; split; [discriminate|reflexivity]).
    split; [reflexivity|]. split; [reflexivity|].
    rewrite <- Hnext by (vm_compute; split; [discriminate|reflexivity]).
    apply Hback. vm_compute. split; [discriminate|reflexivity].
Defined.

(** ** The player component *)

Section player_component.
Import YouTubePlayer.

Lemma handleStateChange_sends flag player playerState :
  let result := handleStateChange flag player playerState in
  (length (filter is_send result.2) ≤ (if flag then 1 else 0))%nat
  ∧ (result.1 = true → flag = true ∧ filter is_send result.2 = [])
  ∧ (flag = false → result.1 = false).
Proof.
  unfold handleStateChange.
  destruct (playerState =? PLAYING) eqn:Hplaying,
    (playerState =? PAUSED) eqn:Hpaused,
    (playerState =? ENDED) eqn:Hended,
    (playerState =? BUFFERING) eqn:Hbuffering, flag;
    simpl; repeat split; try done; try lia.
Qed.

Lemma handleStateChanges_sends flag events :
  let result := handleStateChanges flag events in
  (length (filter is_send result.2) ≤ (if flag then 1 else 0))%nat
  ∧ (flag = false → result.1 = false).
Proof.
  revert flag. induction events as [|[player playerState] events IH];
    intros flag; simpl.
  - split; [destruct flag; simpl; lia|done].
  - pose proof (handleStateChange_sends flag player playerState) as Hone.
    cbv zeta in Hone.
    destruct (handleStateChange flag player playerState) as [flag1 effects1].
    specialize (IH flag1). cbv zeta in IH.
    destruct (handleStateChanges flag1 events) as [flag2 effects2].
    simpl in *. destruct Hone as (Hlen1 & Hkept & Hfalse1).
    destruct IH as (Hlen2 & Hfalse2).
    rewrite filter_app, length_app. split.
    + destruct flag1.
      * destruct (Hkept eq_refl) as [-> Hnone]. rewrite Hnone. simpl. lia.
      * destruct flag; simpl in *; lia.
    + intros ->. apply Hfalse2. by apply Hfalse1.
Qed.

End player_component.

(** X18 (no echo, one broadcast per local action).  The component sends a
    player action to the server only from a state change that finds the
    local-action flag set, and that state change clears the flag.  So a run
    of state changes that starts with the flag clear (as after applying a
    remote sync event, which lets the flag alone) sends nothing and leaves
    the flag clear, and a run that starts with the flag set sends at most
    one action; the end of a video never sends one. *)
Theorem state_changes_send_at_most_once :
  ∀ (events : list (YouTubePlayer.YTPlayer * Z)) (flag : bool),
    let result := YouTubePlayer.handleStateChanges flag events in
    (length (filter YouTubePlayer.is_send result.2) ≤ 1)%nat
    ∧ (flag = false →
       result.1 = false ∧ filter YouTubePlayer.is_send result.2 = [])
    ∧ (∀ player,
         filter YouTubePlayer.is_send
           (YouTubePlayer.handleStateChange flag player YouTubePlayer.ENDED).2
         = []
         ∧ (YouTubePlayer.handleStateChange flag player YouTubePlayer.ENDED).1
           = flag).
Proof.
  intros events flag result.
  pose proof (handleStateChanges_sends flag events) as [Hlen Hclear].
  fold result in Hlen, Hclear.
  split; [destruct flag; lia|]. split.
  - intros ->. split; [by apply Hclear|].
    simpl in Hlen. destruct (filter _ _); [done|simpl in Hlen; lia].
  - intros player. by destruct flag.
Qed.

Lemma state_changes_send_at_most_once_witness :
  (YouTubePlayer.handleStateChanges false
     [ (YouTubePlayer.mkPlayer 10%float 200%float, YouTubePlayer.BUFFERING);
       (YouTubePlayer.mkPlayer 10%float 200%float, YouTubePlayer.PLAYING) ]).1
  = false
  ∧ filter YouTubePlayer.is_send
      (YouTubePlayer.handleStateChanges false
         [ (YouTubePlayer.mkPlayer 10%float 200%float, YouTubePlayer.BUFFERING);
           (YouTubePlayer.mkPlayer 10%float 200%float, YouTubePlayer.PLAYING) ]).2
    = [].
Proof.
  apply (state_changes_send_at_most_once
           [ (YouTubePlayer.mkPlayer 10%float 200%float, YouTubePlayer.BUFFERING);
             (YouTubePlayer.mkPlayer 10%float 200%float, YouTubePlayer.PLAYING) ]
           false).
  reflexivity.
Defined.

(** The flag is cleared by the first state change that is not the end of
    the video, whether or not that change is one that is sent: a local play
    that the player answers with BUFFERING before PLAYING is not broadcast. *)
Example buffering_swallows_a_local_play :
  YouTubePlayer.handleStateChanges true
    [ (YouTubePlayer.mkPlayer 10%float 200%float, YouTubePlayer.BUFFERING);
      (YouTubePlayer.mkPlayer 10%float 200%float, YouTubePlayer.PLAYING) ]
  = (false,
     [ YouTubePlayer.dispatch (RoomContext.SET_PLAYER_STATE buffering);
       YouTubePlayer.setDuration 200%float ]).
Proof. vm_compute. reflexivity. Qed.

(** ** Listening over time *)

(** A handler addressed elsewhere, or to no room, sends nothing to the
    connections of [roomId]. *)
Lemma heard_elsewhere now socket ev rooms roomId :
  addressed socket ev ≠ Some roomId →
  heard_by_others roomId (handle now socket ev rooms).2 = [].
Proof.
  intros Hother.
  assert (∀ r (m : ServerMsg), Some r ≠ Some roomId →
            (if bool_decide (r = roomId) then Some m else None) = None)
    as Haway.
  { intros r m Hr. rewrite bool_decide_eq_false_2; [done|congruence]. }
  destruct ev; simpl in Hother |- *.
  - rewrite on_room_join_effects. simpl. by rewrite Haway.
  - unfold on_room_leave. destruct (currentRoomId socket) as [current|]; [|done].
    destruct (truthy current); [|done].
    destruct (getRoom current rooms). simpl. by rewrite Haway.
  - rewrite on_participant_update_eq. cbv zeta.
    destruct (0 <=? _); simpl; [|done]. by rewrite Haway.
  - rewrite on_player_action_eq. simpl. by rewrite Haway.
  - rewrite on_queue_add_eq. simpl. by rewrite Haway.
  - rewrite on_queue_remove_eq. simpl. by rewrite Haway.
  - rewrite on_queue_change_video_eq. simpl. by rewrite Haway.
  - rewrite on_chat_send_eq. simpl. by rewrite Haway.
  - destruct (decide (participantId = EmptyString)) as [->|Hne].
    + by rewrite on_vote_next_falsy.
    + rewrite on_vote_next_truthy by done. cbv zeta.
      destruct (len _ <=? _); [destruct (currentVideoIndex _ <? _)|];
        simpl; by rewrite !Haway.
  - unfold on_disconnect. destruct (currentRoomId socket) as [current|]; [|done].
    destruct (truthy current); [|done].
    destruct (getRoom current rooms). simpl. by rewrite Haway.
Qed.

Lemma room_of_elsewhere now socket ev rooms roomId :
  addressed socket ev ≠ Some roomId →
  room_of (handle now socket ev rooms).1.1 roomId = room_of rooms roomId.
Proof.
  intros Hother. pose proof (handle_rooms now socket ev rooms) as Hshape.
  cbv zeta in Hshape. destruct (addressed socket ev) as [r|].
  - rewrite Hshape. apply room_of_insert_ne. congruence.
  - by rewrite Hshape.
Qed.

(** X19 (in step for good).  A client that holds a room's queue and current
    index keeps holding the server's queue and index of that room through
    any sequence of handler runs by other connections, in that room or in
    others, as long as it receives what is sent to the room. *)
Theorem listener_keeps_queue_and_index :
  ∀ (inputs : list Input) (rooms : gmap string Room) (roomId : string)
    (state : RoomContext.RoomState),
    RoomContext.queue state = queue (room_of rooms roomId) →
    RoomContext.currentVideoIndex state
    = currentVideoIndex (room_of rooms roomId) →
    let final := observe roomId inputs rooms state in
    final.1 = steps inputs rooms
    ∧ RoomContext.queue final.2 = queue (room_of final.1 roomId)
    ∧ RoomContext.currentVideoIndex final.2
      = currentVideoIndex (room_of final.1 roomId).
Proof.
  intros inputs. unfold steps.
  induction inputs as [|[[now socket] ev] inputs IH];
    intros rooms roomId state Hqueue Hindex; simpl; [done|].
  destruct (decide (addressed socket ev = Some roomId)) as [Haddr|Hother].
  - destruct (observed_queue_and_index now socket ev rooms roomId state
                Haddr Hqueue Hindex) as [Hq Hi].
    by apply IH.
  - apply IH; by rewrite heard_elsewhere, room_of_elsewhere.
Qed.

Lemma listener_keeps_queue_and_index_witness :
  RoomContext.queue (observe "R" busy_evening two_rooms client_of_R).2
  = queue (room_of (observe "R" busy_evening two_rooms client_of_R).1 "R").
Proof.
  apply (listener_keeps_queue_and_index busy_evening two_rooms "R" client_of_R);
    reflexivity.
Defined.

Example after_a_busy_evening :
  RoomContext.queue (observe "R" busy_evening two_rooms client_of_R).2
  = [video2; video3]
  ∧ RoomContext.currentVideoIndex
      (observe "R" busy_evening two_rooms client_of_R).2 = 0.
Proof. split; vm_compute; reflexivity. Qed.

(** ** Votes over all handlers *)

(** The room of [roomId] after any handler run, whether or not the run was
    addressed to it, as one of the shapes of [handle_observed] or
    unchanged. *)
Lemma handle_votes now socket ev rooms roomId :
  let before := votes (room_of rooms roomId) in
  let after := votes (room_of (handle now socket ev rooms).1.1 roomId) in
  after = before
  ∨ (∃ participantId,
       ev = VoteNext roomId participantId
       ∧ (after = JSSet.add participantId before ∨ after = [])).
Proof.
  intros before after. subst before after.
  destruct (decide (addressed socket ev = Some roomId)) as [Haddr|Hother].
  - pose proof (handle_observed now socket ev rooms roomId Haddr) as Hseen.
    cbv zeta in Hseen.
    destruct ev;
      try (simpl in Haddr; injection Haddr as ->);
      repeat match goal with
        | H : _ ∧ _ |- _ => destruct H as [? ?]
        | H : _ ∨ _ |- _ => destruct H as [?|?]
        end;
      repeat match goal with
        | H : room_of _ _ = _ |- _ => rewrite H; clear H
        end; auto; right; eexists; split; try reflexivity; auto.
  - left. by rewrite room_of_elsewhere.
Qed.

(** X20 (votes are only ever cleared).  No handler takes a single id out of
    a room's vote set: after any handler run the set is empty or still holds
    every id it held, and it differs from before only after a vote in that
    room.  In particular a connection that leaves or closes keeps its vote
    in the set. *)
Theorem votes_are_only_cleared :
  ∀ (now : float) (socket : Connection) (ev : ClientEvent)
    (rooms : gmap string Room) (roomId : string),
    let before := votes (room_of rooms roomId) in
    let after := votes (room_of (handle now socket ev rooms).1.1 roomId) in
    (after = [] ∨ ∀ id, id ∈ before → id ∈ after)
    ∧ (after ≠ before → ∃ participantId, ev = VoteNext roomId participantId)
    ∧ (ev = Disconnect ∨ (∃ payload, ev = RoomLeave payload) →
       after = before).
Proof.
  intros now socket ev rooms roomId before after.
  destruct (handle_votes now socket ev rooms roomId)
    as [Hsame|(participantId & -> & [Hadd|Hclear])];
    fold before after in Hsame || fold before after in Hadd
    || fold before after in Hclear.
  - rewrite Hsame. split; [by right|]. split; [done|done].
  - rewrite Hadd. split; [|split].
    + right. intros id Hid. apply JSSet_add_elem_of. by right.
    + eauto.
    + intros [H|[payload H]]; discriminate.
  - rewrite Hclear. split; [by left|]. split; [eauto|].
    intros [H|[payload H]]; discriminate.
Qed.

(** Sam has voted and closes his connection: his vote stays, and with it
    the two remaining participants have a full vote set although Bob never
    voted, so Alice's next vote advances the queue. *)
Example a_departed_vote_still_counts :
  let rooms : gmap string Room := {[ "Q" := sam_has_voted ]} in
  let left := (on_disconnect {| socket_id := "s1"; currentRoomId := Some "Q" |}
                 rooms).1.1 in
  let result := on_vote_next 9000%float (connect "sa") "Q" "a" left in
  ids (participants (room_of left "Q")) = ["a"; "b"]
  ∧ votes (room_of left "Q") = ["a"; "s1"]
  ∧ currentVideoIndex (room_of result.1.1 "Q") = 1.
Proof. repeat split; vm_compute; reflexivity. Qed.

(** X21 (which handler writes what).  In any room, the roster changes only
    by a join, a leave, a closing or a patch; the queue only by an addition
    or a removal; the chat buffer only by a chat message; the current index
    only by an explicit selection or a vote; the player state and the
    current time only by a player action, a selection or a vote. *)
Theorem handlers_write_only_their_fields :
  ∀ (now : float) (socket : Connection) (ev : ClientEvent)
    (rooms : gmap string Room) (roomId : string),
    let room := room_of rooms roomId in
    let room' := room_of (handle now socket ev rooms).1.1 roomId in
    (writes_roster ev = false → participants room' = participants room)
    ∧ (writes_queue ev = false → queue room' = queue room)
    ∧ ((∀ r m, ev ≠ ChatSend r m) → messages room' = messages room)
    ∧ (writes_index ev = false →
       currentVideoIndex room' = currentVideoIndex room)
    ∧ (writes_playback ev = false →
       playerState room' = playerState room
       ∧ currentTime room' = currentTime room).
Proof.
  intros now socket ev rooms roomId room room'. subst room room'.
  destruct (decide (addressed socket ev = Some roomId)) as [Haddr|Hother].
  - pose proof (handle_observed now socket ev rooms roomId Haddr) as Hseen.
    cbv zeta in Hseen.
    destruct ev;
      repeat match goal with
        | H : _ ∧ _ |- _ => destruct H as [? ?]
        | H : _ ∨ _ |- _ => destruct H as [?|?]
        end;
      repeat match goal with
        | H : room_of _ _ = _ |- _ => rewrite H; clear H
        end;
      simpl; repeat split; try done;
      intros Hnot; by destruct (Hnot roomId0 message).
  - rewrite room_of_elsewhere by done. by repeat split.
Qed.

(** ** The queue component and the server *)

(** X22 (the optimistic queue update is the server's).  A client that holds
    the server's queue and index and adds an item, removes one or selects a
    video first updates its own state and then asks the server: the state it
    shows at once already has the queue and index that the server reaches,
    and the broadcast that comes back leaves them as they are. *)
Theorem optimistic_queue_update_is_confirmed :
  ∀ (now : float) (socket : Connection) (roomId itemId : string)
    (item : QueueItem.t) (index : Z)
    (action : list RoomContext.RoomAction * list ClientEvent)
    (rooms : gmap string Room) (state : RoomContext.RoomState),
    roomId ≠ EmptyString →
    RoomContext.queue state = queue (room_of rooms roomId) →
    RoomContext.currentVideoIndex state
    = currentVideoIndex (room_of rooms roomId) →
    action = QueueComponent.addQueueItem true roomId item
    ∨ action = QueueComponent.handleRemove true roomId itemId
    ∨ action = QueueComponent.handleSelectVideo true roomId index →
    let outcome := act now socket roomId action rooms state in
    let optimistic := outcome.1.1 in
    let room' := room_of outcome.1.2 roomId in
    let confirmed := outcome.2 in
    RoomContext.queue optimistic = queue room'
    ∧ RoomContext.currentVideoIndex optimistic = currentVideoIndex room'
    ∧ RoomContext.queue confirmed = queue room'
    ∧ RoomContext.currentVideoIndex confirmed = currentVideoIndex room'.
Proof.
  intros now socket roomId itemId item index action rooms state
    Hne%truthy_spec Hqueue Hindex Haction.
  destruct Haction as [->|[->| ->]];
    unfold act, QueueComponent.addQueueItem, QueueComponent.handleRemove,
      QueueComponent.handleSelectVideo, QueueComponent.emit;
    rewrite Hne; cbn [andb fst snd foldl handle].
  - rewrite on_queue_add_eq. cbn [fst snd]. rewrite room_of_insert.
    simpl. rewrite bool_decide_eq_true_2 by done. simpl.
    by rewrite Hqueue, Hindex.
  - rewrite on_queue_remove_eq. cbn [fst snd]. rewrite room_of_insert.
    simpl. rewrite bool_decide_eq_true_2 by done. simpl.
    by rewrite Hqueue, Hindex.
  - rewrite on_queue_change_video_eq. cbn [fst snd]. rewrite room_of_insert.
    simpl. rewrite bool_decide_eq_true_2 by done. simpl.
    by rewrite Hqueue.
Qed.

Lemma optimistic_queue_update_is_confirmed_witness :
  RoomContext.queue
    (act 9000%float (connect "s2") "R"
       (QueueComponent.handleRemove true "R" "q1")
       {[ "R" := two_of_three_voted ]} client_of_R).1.1
  = queue
      (room_of
         (act 9000%float (connect "s2") "R"
            (QueueComponent.handleRemove true "R" "q1")
            {[ "R" := two_of_three_voted ]} client_of_R).1.2 "R").
Proof.
  apply (optimistic_queue_update_is_confirmed 9000%float (connect "s2") "R"
           "q1" video3 0 (QueueComponent.handleRemove true "R" "q1")
           {[ "R" := two_of_three_voted ]} client_of_R).
  - discriminate.
  - reflexivity.
  - reflexivity.
  - right. left. reflexivity.
Defined.

(** Without a socket the dispatch still happens and nothing is sent: the
    client's queue changes and the server's does not. *)
Example local_update_without_socket :
  let outcome :=
    act 9000%float (connect "s2") "R"
      (QueueComponent.handleRemove false "R" "q1")
      {[ "R" := two_of_three_voted ]} client_of_R in
  RoomContext.queue outcome.2 = [video2]
  ∧ queue (room_of outcome.1.2 "R") = [video1; video2].
Proof. split; vm_compute; reflexivity. Qed.
